(** * should-it-be-automated: the two maintenance scripts

    [src/fix_borders.py] (StyleTokenRewriter) rewrites CSS utility-class
    tokens in a fixed list of files with ten [re.sub] passes;
    [src/fix_tests.py] (FieldInserter) inserts an
    [organisationalPressure: 1,] field after every [codeChange: ...,]
    field with one [re.sub] pass.

    Both scripts are embedded over one model of the part of Python's [re]
    they use (a backtracking matcher and [re.sub]) and one model of the
    interpreter's effects (files, standard output, exceptions). *)

From Stdlib Require Import List NArith String Ascii Bool Arith Lia.
Import ListNotations.

Set Implicit Arguments.

(** ** Text

    A Python [str] is a sequence of Unicode code points.  A code point is
    modelled as a number, a [str] as a list of them. *)

Definition char := N.
Definition text := list char.

(** A literal of the source, read as text. *)
Definition str (s : string) : text :=
  map N_of_ascii (list_ascii_of_string s).

(** The characters that cannot be written inside a literal here. *)
Definition dquote : char := 34%N.
Definition newline : char := 10%N.

(** [prefixb w s]: does [s] start with [w]? *)
Fixpoint prefixb (w s : text) : bool :=
  match w, s with
  | [], _ => true
  | a :: w', b :: s' => (b =? a)%N && prefixb w' s'
  | _ :: _, [] => false
  end.

(** [occurs p s]: does [p] occur somewhere in [s]? *)
Fixpoint occurs (p s : text) : bool :=
  prefixb p s
  || match s with
     | [] => false
     | _ :: s' => occurs p s'
     end.

(** ** The fragment of [re] used by the scripts *)

Module Re.

(** The patterns of the two scripts use: literal characters, character
    classes ([\s], [[^,\n]], [[a-zA-Z]]), greedy [*] and [+] over a
    class, concatenation, numbered groups and a negative lookahead. *)
Inductive regex : Type :=
| Eps
| Chr (c : char)
| Cls (p : char -> bool)
| Star (p : char -> bool)
| Plus (p : char -> bool)
| Cat (r1 r2 : regex)
| Group (n : nat) (r : regex)
| NegLook (r : regex).

(** A literal pattern: every character stands for itself. *)
Definition lit (w : text) : regex :=
  fold_right (fun c r => Cat (Chr c) r) Eps w.

(** Group number and captured text, most recent first. *)
Definition captures := list (nat * text).

Fixpoint group (caps : captures) (n : nat) : text :=
  match caps with
  | [] => []
  | (k, t) :: caps' => if Nat.eqb k n then t else group caps' n
  end.

(** The remainders a greedy [p*] can leave, in the order the
    backtracking matcher tries them: longest run first. *)
Fixpoint greedy (p : char -> bool) (s : text) : list text :=
  match s with
  | c :: s' => if p c then greedy p s' ++ [s] else [s]
  | [] => [[]]
  end.

(** All the ways [r] matches at the start of [s], as (remainder,
    captures), in the matcher's priority order.  The matcher returns the
    first one. *)
Fixpoint run (r : regex) (s : text) (caps : captures)
  : list (text * captures) :=
  match r with
  | Eps => [(s, caps)]
  | Chr c =>
      match s with
      | x :: s' => if (x =? c)%N then [(s', caps)] else []
      | [] => []
      end
  | Cls p =>
      match s with
      | x :: s' => if p x then [(s', caps)] else []
      | [] => []
      end
  | Star p => map (fun s' => (s', caps)) (greedy p s)
  | Plus p =>
      match s with
      | x :: s' =>
          if p x then map (fun s'' => (s'', caps)) (greedy p s') else []
      | [] => []
      end
  | Cat r1 r2 =>
      flat_map (fun sc => run r2 (fst sc) (snd sc)) (run r1 s caps)
  | Group n r1 =>
      map (fun sc =>
             (fst sc,
              (n, firstn (List.length s - List.length (fst sc)) s) :: snd sc))
          (run r1 s caps)
  | NegLook r1 =>
      match run r1 s caps with
      | [] => [(s, caps)]
      | _ :: _ => []
      end
  end.

(** [pattern.match] at the start of [s]. *)
Definition re_match (r : regex) (s : text) : option (text * captures) :=
  hd_error (run r s []).

(** A replacement template: literal text and [\n] group references. *)
Inductive titem : Type :=
| TLit (t : text)
| TRef (n : nat).

Definition template := list titem.

Definition expand (tpl : template) (caps : captures) : text :=
  flat_map (fun i => match i with
                     | TLit t => t
                     | TRef n => group caps n
                     end) tpl.

(** [re.sub]: scan left to right; at each position try the pattern;
    on a match emit the expanded template and go on after the match,
    otherwise copy one character.  [skip] counts the characters of the
    current match still to be passed over. *)
Fixpoint sub_from (r : regex) (tpl : template) (skip : nat) (s : text)
  : text :=
  match skip with
  | S k =>
      match s with
      | [] => []
      | _ :: s' => sub_from r tpl k s'
      end
  | O =>
      match re_match r s with
      | Some (rest, caps) =>
          expand tpl caps ++
          match s with
          | [] => []
          | c :: s' =>
              match List.length s - List.length rest with
              | O => c :: sub_from r tpl 0 s'
              | S k => sub_from r tpl k s'
              end
          end
      | None =>
          match s with
          | [] => []
          | c :: s' => c :: sub_from r tpl 0 s'
          end
      end
  end.

Definition sub (r : regex) (tpl : template) (s : text) : text :=
  sub_from r tpl 0 s.

(** The suffixes of the input at which [sub_from] tries the pattern:
    the positions the scan visits, in order. *)
Fixpoint scan_from (r : regex) (skip : nat) (s : text) : list text :=
  match skip with
  | S k =>
      match s with
      | [] => []
      | _ :: s' => scan_from r k s'
      end
  | O =>
      s ::
      match s with
      | [] => []
      | _ :: s' =>
          match re_match r s with
          | Some (rest, _) =>
              match List.length s - List.length rest with
              | O => scan_from r 0 s'
              | S k => scan_from r k s'
              end
          | None => scan_from r 0 s'
          end
      end
  end.

Definition scan (r : regex) (s : text) : list text := scan_from r 0 s.

End Re.

(** ** The interpreter's effects

    What the scripts do besides computing: they read and write files,
    print lines, index [sys.argv], raise and catch exceptions.  The file
    system is a parameter: [os_read] is [open(path, 'r')] followed by
    [read()], [os_write] is [open(path, 'w')] followed by [write(...)];
    either may raise, and a failed write may still have changed the file
    system. *)

Module Py.

Record Exception : Type :=
  { exc_class : string; exc_msg : string }.

Record OS (FS : Type) : Type :=
  { os_read : FS -> string -> Exception + text;
    os_write : FS -> string -> text -> FS * option Exception }.

Record world (FS : Type) : Type :=
  { files : FS; stdout : list string }.

Section Effects.
Variable FS : Type.
Variable os : OS FS.

(** A computation either raises or returns, and leaves a world. *)
Definition M (A : Type) : Type :=
  world FS -> (Exception + A) * world FS.

Definition ret {A : Type} (a : A) : M A := fun w => (inr a, w).

Definition raise {A : Type} (e : Exception) : M A := fun w => (inl e, w).

Definition bind {A B : Type} (m : M A) (k : A -> M B) : M B :=
  fun w =>
    match m w with
    | (inr a, w') => k a w'
    | (inl e, w') => (inl e, w')
    end.

(** [try: body / except Exception as e: handler e] *)
Definition try_except {A : Type} (body : M A) (handler : Exception -> M A)
  : M A :=
  fun w =>
    match body w with
    | (inr a, w') => (inr a, w')
    | (inl e, w') => handler e w'
    end.

Definition print_line (line : string) (w : world FS) : world FS :=
  {| files := files w; stdout := stdout w ++ [line] |}.

Definition print (line : string) : M unit :=
  fun w => (inr tt, print_line line w).

Definition read_file (path : string) : M text :=
  fun w =>
    match os_read os (files w) path with
    | inr content => (inr content, w)
    | inl e => (inl e, w)
    end.

Definition write_file (path : string) (content : text) : M unit :=
  fun w =>
    let (fs', err) := os_write os (files w) path content in
    let w' := {| files := fs'; stdout := stdout w |} in
    match err with
    | None => (inr tt, w')
    | Some e => (inl e, w')
    end.

(** [l[i]] *)
Definition index {A : Type} (l : list A) (i : nat) : M A :=
  match nth_error l i with
  | Some a => ret a
  | None =>
      raise {| exc_class := "IndexError";
               exc_msg := "list index out of range" |}
  end.

(** [for x in l: body x] *)
Fixpoint for_each {A : Type} (l : list A) (body : A -> M unit) : M unit :=
  match l with
  | [] => ret tt
  | x :: l' => bind (body x) (fun _ => for_each l' body)
  end.

End Effects.

(** The exit status of the interpreter: 0 when the script runs to its
    end, 1 when an exception reaches the top level. *)
Definition exit_status {A : Type} (r : Exception + A) : nat :=
  match r with
  | inr _ => 0
  | inl _ => 1
  end.

End Py.

Declare Scope py_scope.
Delimit Scope py_scope with py.
Notation "x <- m ;; k" := (Py.bind m (fun x => k))
  (at level 61, m at next level, right associativity) : py_scope.
Notation "m ;; k" := (Py.bind m (fun _ => k))
  (at level 61, right associativity) : py_scope.

(** ** FieldInserter: [src/fix_tests.py] *)

Module FixTests.
Import Re.

(** [\s] on a [str] pattern: the Unicode whitespace characters. *)
Definition is_space (c : char) : bool :=
  ((9 <=? c) && (c <=? 13) || (28 <=? c) && (c <=? 32)
   || (c =? 133) || (c =? 160) || (c =? 5760)
   || (8192 <=? c) && (c <=? 8202)
   || (c =? 8232) || (c =? 8233) || (c =? 8239) || (c =? 8287)
   || (c =? 12288))%N.

(** [[^,\n]] *)
Definition not_comma_nl (c : char) : bool :=
  negb ((c =? 44) || (c =? 10))%N.

(** [[a-zA-Z]] *)
Definition is_letter (c : char) : bool :=
  ((97 <=? c) && (c <=? 122) || (65 <=? c) && (c <=? 90))%N.

Definition comma : char := 44%N.

Definition key : text := str "codeChange:".
Definition target : text := str "organisationalPressure".

(** Group 1 of the pattern: [codeChange:], [\s*], [[^,\n]+], [,]. *)
Definition sentinel : regex :=
  Cat (lit key)
      (Cat (Star is_space) (Cat (Plus not_comma_nl) (Chr comma))).

(** Group 3 of the pattern: [(?!organisationalPressure)[a-zA-Z]]. *)
Definition guard : regex :=
  Cat (NegLook (lit target)) (Cls is_letter).

(** The pattern: group 1, group 2 [\s*], group 3. *)
Definition pattern : regex :=
  Cat (Group 1 sentinel) (Cat (Group 2 (Star is_space)) (Group 3 guard)).

Definition inserted : text := str "organisationalPressure: 1,".

(** The replacement [\1\2organisationalPressure: 1,\2\3]. *)
Definition replacement : template :=
  [TRef 1; TRef 2; TLit inserted; TRef 2; TRef 3].

Definition add_org_pressure (content : text) : text :=
  sub pattern replacement content.

(** The body under [if __name__ == '__main__':]. *)
Definition main {FS : Type} (os : Py.OS FS) (argv : list string)
  : Py.M FS unit :=
  (file_path <- Py.index argv 1 ;;
   content <- Py.read_file os file_path ;;
   Py.write_file os file_path (add_org_pressure content) ;;
   Py.print ("Fixed " ++ file_path)%string)%py.

(** The whitespace run at the start of a text and what follows it. *)
Fixpoint leading_space (s : text) : text :=
  match s with
  | c :: s' => if is_space c then c :: leading_space s' else []
  | [] => []
  end.

Fixpoint skip_space (s : text) : text :=
  match s with
  | c :: s' => if is_space c then skip_space s' else s
  | [] => []
  end.

Definition starts_with_letter (s : text) : bool :=
  match s with
  | c :: _ => is_letter c
  | [] => false
  end.

(** What suppresses the insertion, [rest] being the text
    after the sentinel's comma: the first character after the
    whitespace is not an ASCII letter (or there is none), or the text
    there starts with [organisationalPressure]. *)
Definition suppressed (rest : text) : bool :=
  negb (starts_with_letter (skip_space rest))
  || prefixb target (skip_space rest).

End FixTests.

(** ** StyleTokenRewriter: [src/fix_borders.py] *)

Module FixBorders.
Import Re.

Definition files_to_fix : list string :=
  [ "src/components/TestCaseRowNormal.tsx";
    "src/components/TestCaseRowTeaching.tsx";
    "src/components/TableFilters.tsx" ]%string.

Definition replacements : list (string * string) :=
  [ ("border-b-4 border-black", "border-b");
    ("border-r-4 border-black", "border-r");
    ("border-t-4 border-black", "border-t");
    ("border-l-4 border-black", "border-l");
    ("border-brutal", "border rounded-lg");
    ("shadow-brutal-lg", "shadow-md");
    ("shadow-brutal", "shadow-sm");
    ("hover:shadow-brutal", "hover:shadow-md");
    ("font-black", "font-semibold");
    ("border-2 border-black", "border") ]%string.

(** None of the ten patterns contains a character that is special in a
    regular expression, and no replacement contains a backslash: each
    pattern compiles to a literal, each replacement to literal text. *)
Definition re_sub (old new : string) (content : text) : text :=
  sub (lit (str old)) [TLit (str new)] content.

(** [for old, new in rules: content = re.sub(old, new, content)] *)
Definition apply_rules (rules : list (string * string)) (content : text)
  : text :=
  fold_left (fun c on => re_sub (fst on) (snd on) c) rules content.

(** What the [try] does to the content of one file. *)
Definition rewrite (content : text) : text :=
  apply_rules replacements content.

(** The body of the [try]. *)
Definition fix_body {FS : Type} (os : Py.OS FS) (filepath : string)
  : Py.M FS unit :=
  (content <- Py.read_file os filepath ;;
   Py.write_file os filepath (rewrite content) ;;
   Py.print ("Fixed " ++ filepath)%string)%py.

(** One turn of the loop. *)
Definition fix_file {FS : Type} (os : Py.OS FS) (filepath : string)
  : Py.M FS unit :=
  Py.try_except (fix_body os filepath)
    (fun e =>
       Py.print ("Error fixing " ++ filepath ++ ": " ++ Py.exc_msg e)%string).

Definition main {FS : Type} (os : Py.OS FS) : Py.M FS unit :=
  (Py.for_each files_to_fix (fix_file os) ;;
   Py.print "Done!"%string)%py.

(** The world one turn of the loop leaves. *)
Definition turn {FS : Type} (os : Py.OS FS) (w : Py.world FS)
  (filepath : string) : Py.world FS :=
  snd (fix_file os filepath w).

(** The line a turn can print for a path. *)
Definition reports (filepath line : string) : Prop :=
  line = ("Fixed " ++ filepath)%string
  \/ exists e,
       line = ("Error fixing " ++ filepath ++ ": " ++ Py.exc_msg e)%string.

End FixBorders.

(** ** Tokens a literal pattern cannot touch

    [isolated old m] checks that no occurrence of [old] can lie across
    either end of an occurrence of [m], whatever surrounds it: no proper
    end of [old] starts [m] or is started by [m], and no end of [m]
    shorter than [old] starts [old]. *)

Module Overlap.

Definition clear_left (old m : text) : bool :=
  forallb (fun k => negb (prefixb (skipn k old) m)
                 && negb (prefixb m (skipn k old)))
          (seq 1 (List.length old - 1)).

Definition clear_right (old m : text) : bool :=
  forallb (fun j => (List.length old <=? List.length (skipn j m))
                 || negb (prefixb (skipn j m) old))
          (seq 0 (List.length m)).

Definition isolated (old m : text) : bool :=
  (1 <=? List.length old) && clear_left old m && clear_right old m.

(** [m] stays clear of every rule of [rules] in turn, each rule being
    checked against what the rules before it made of [m]. *)
Fixpoint isolated_through (rules : list (string * string)) (m : text)
  : bool :=
  match rules with
  | [] => true
  | (old, new) :: rules' =>
      isolated (str old) m
      && isolated_through rules' (FixBorders.re_sub old new m)
  end.

End Overlap.

(** ** A file system to run the scripts on

    Files are a list of (path, content); reading a missing path raises
    [FileNotFoundError], writing replaces or creates the entry. *)

Module SimpleFS.

Definition FS : Type := list (string * text).

Fixpoint lookup (fs : FS) (path : string) : option text :=
  match fs with
  | [] => None
  | (p, c) :: fs' => if String.eqb p path then Some c else lookup fs' path
  end.

Fixpoint store (fs : FS) (path : string) (content : text) : FS :=
  match fs with
  | [] => [(path, content)]
  | (p, c) :: fs' =>
      if String.eqb p path then (p, content) :: fs'
      else (p, c) :: store fs' path content
  end.

Definition os : Py.OS FS :=
  {| Py.os_read := fun fs path =>
       match lookup fs path with
       | Some c => inr c
       | None =>
           inl {| Py.exc_class := "FileNotFoundError";
                  Py.exc_msg :=
                    ("[Errno 2] No such file or directory: '"
                       ++ path ++ "'")%string |}
       end;
     Py.os_write := fun fs path content => (store fs path content, None) |}.

(** The same files when nothing may be written: every write raises
    [PermissionError] and changes nothing. *)
Definition read_only : Py.OS FS :=
  {| Py.os_read := Py.os_read os;
     Py.os_write := fun fs path content =>
       (fs, Some {| Py.exc_class := "PermissionError";
                    Py.exc_msg :=
                      ("[Errno 13] Permission denied: '"
                         ++ path ++ "'")%string |}) |}.


(** The message of the error a missing path raises, and the line
    StyleTokenRewriter prints for a path on these files. *)
Definition not_found (p : string) : string :=
  ("[Errno 2] No such file or directory: '" ++ p ++ "'")%string.

Definition simple_line (fs : FS) (p : string) : string :=
  match lookup fs p with
  | Some _ => ("Fixed " ++ p)%string
  | None => ("Error fixing " ++ p ++ ": " ++ not_found p)%string
  end.

End SimpleFS.


(** ** The texts the specification names *)

Module Examples.
Import FixTests.

(** [codeChange: "refactor", severity: 2] *)
Definition refactor_in : text :=
  str "codeChange: " ++ dquote :: str "refactor"
      ++ dquote :: str ", severity: 2".

(** [codeChange: "refactor", organisationalPressure: 1, severity: 2] *)
Definition refactor_out : text :=
  str "codeChange: " ++ dquote :: str "refactor"
      ++ dquote :: str ", organisationalPressure: 1, severity: 2".

(** [codeChange: "x",], a line break, [organisationalPressure: 1,] *)
Definition line_break_in : text :=
  str "codeChange: " ++ dquote :: str "x"
      ++ dquote :: comma :: newline :: str "organisationalPressure: 1,".

Definition call_in : text := str "codeChange: f(a, b), severity: 2".

Definition call_out : text :=
  str "codeChange: f(a, organisationalPressure: 1, b), severity: 2".

(** The same field inside an object literal. *)
Definition braces_call_in : text :=
  str "{ codeChange: f(a, b), severity: 2 }".

Definition braces_call_out : text :=
  str "{ codeChange: f(a, organisationalPressure: 1, b), severity: 2 }".

(** Values in which nothing is inserted: the first comma is followed by a
    digit; the field comes right after another [codeChange] field; the
    text before the first comma has a line break; there is no text before
    the first comma. *)
Definition call_digit : text := str "codeChange: f(a,1, b), severity: 2".

Definition call_second : text :=
  str "codeChange: x, codeChange: f(a, b), severity: 2".

Definition call_second_out : text :=
  str "codeChange: x, organisationalPressure: 1, codeChange: f(a, b), severity: 2".

Definition call_newline : text :=
  str "codeChange: f(" ++ newline :: str "a, b), severity: 2".

Definition call_empty : text := str "codeChange:, b".

(** Two [codeChange] fields in one object literal. *)
Definition two_fields : text := str "{ codeChange: 1, codeChange: 2, x: 3 }".

Definition two_fields_out : text :=
  str "{ codeChange: 1, organisationalPressure: 1, codeChange: 2, x: 3 }".

(** A value whose comma is followed by the target field's own name. *)
Definition call_target : text :=
  str "codeChange: f(a, organisationalPressure), severity: 2".

(** A field on its own line, indented by four spaces, and the next. *)
Definition indented_in : text :=
  str "codeChange: 3," ++ newline :: str "    severity: 2".

Definition indented_out : text :=
  str "codeChange: 3," ++ newline :: str "    organisationalPressure: 1,"
      ++ newline :: str "    severity: 2".

(** The value of the first example, with its quotes. *)
Definition refactor_value : text := dquote :: str "refactor" ++ [dquote].

(** What the pattern captures on [indented_in]. *)
Definition indented_caps : Re.captures :=
  [ (3, str "s"); (2, newline :: str "    "); (1, str "codeChange: 3,") ].

Definition hover_in : text := str "hover:shadow-brutal".

(** A text in which the last rule of StyleTokenRewriter produces the
    pattern of the first. *)
Definition nested_border : text :=
  str "border-b-4 border-2 border-black-black".

(** Two sentinels, the second starting at the letter that follows the
    first. *)
Definition adjacent_fields : text := str "codeChange: a,codeChange: b, x".

(** A text none of the scripts' patterns occurs in. *)
Definition plain_markup : text := str "<div className='p-2 border'>".

Definition first_path : string := "src/components/TestCaseRowNormal.tsx".
Definition missing_path : string := "src/components/TestCaseRowTeaching.tsx".
Definition last_path : string := "src/components/TableFilters.tsx".

Definition missing_error : Py.Exception :=
  {| Py.exc_class := "FileNotFoundError";
     Py.exc_msg :=
       "[Errno 2] No such file or directory: 'src/components/TestCaseRowTeaching.tsx'" |}.

(** The file system of a run in which the second file is missing. *)
Definition two_files : SimpleFS.FS :=
  [ ("src/components/TestCaseRowNormal.tsx"%string,
     str "class x font-black");
    ("src/components/TableFilters.tsx"%string,
     str "shadow-brutal-lg border-brutal") ].

Definition start : Py.world SimpleFS.FS :=
  {| Py.files := two_files; Py.stdout := [] |}.

End Examples.

(** * Properties *)

Unset Implicit Arguments.

(** ** Text *)

Section TextFacts.

Lemma prefixb_app (w s : text) : prefixb w (w ++ s) = true.
Proof.
  induction w as [|a w IH]; simpl; [reflexivity|].
  now rewrite N.eqb_refl, IH.
Qed.

Lemma prefixb_split (w s : text) :
  prefixb w s = true -> s = w ++ skipn (List.length w) s.
Proof.
  revert s; induction w as [|a w IH]; intros [|b s]; simpl;
    try reflexivity; try discriminate.
  intros H. apply andb_true_iff in H as [Hab Hw].
  apply N.eqb_eq in Hab. subst b. f_equal. now apply IH.
Qed.

Lemma prefixb_skipn_app (w s : text) :
  skipn (List.length w) (w ++ s) = s.
Proof. induction w; simpl; auto. Qed.

(** A prefix of [a ++ b] no longer than [a] is a prefix of [a]. *)
Lemma prefixb_app_short (w a b : text) :
  List.length w <= List.length a ->
  prefixb w (a ++ b) = prefixb w a.
Proof.
  revert a; induction w as [|x w IH]; intros [|y a] Hlen; simpl in *;
    try reflexivity; try lia.
  rewrite IH by lia. reflexivity.
Qed.

(** If [w] starts [a ++ b] and is longer than [a], then [a] starts [w]. *)
Lemma prefixb_app_long (w a b : text) :
  prefixb w (a ++ b) = true -> List.length a <= List.length w ->
  prefixb a w = true.
Proof.
  revert a; induction w as [|x w IH]; intros [|y a]; simpl;
    try reflexivity; try lia; try discriminate.
  intros H Hlen. apply andb_true_iff in H as [Hxy Hw].
  apply N.eqb_eq in Hxy. subst y. rewrite N.eqb_refl. simpl.
  apply IH; [assumption | lia].
Qed.

Lemma prefixb_length (w s : text) :
  prefixb w s = true -> List.length w <= List.length s.
Proof.
  revert s; induction w as [|x w IH]; intros [|y s]; simpl;
    try lia; try discriminate.
  intros H. apply andb_true_iff in H as [_ Hw]. apply IH in Hw. lia.
Qed.

Lemma firstn_consumed (a b : text) :
  firstn (List.length (a ++ b) - List.length b) (a ++ b) = a.
Proof.
  rewrite length_app.
  replace (List.length a + List.length b - List.length b)
    with (List.length a + 0) by lia.
  rewrite firstn_app_2. simpl. apply app_nil_r.
Qed.

Lemma flat_map_map {A B C : Type} (f : B -> list C) (g : A -> B) l :
  flat_map f (map g l) = flat_map (fun x => f (g x)) l.
Proof. induction l; simpl; congruence. Qed.

Lemma flat_map_nil {A B : Type} (f : A -> list B) l :
  (forall x, In x l -> f x = []) -> flat_map f l = [].
Proof.
  induction l as [|x l IH]; simpl; intros H; [reflexivity|].
  rewrite (H x) by now left. apply IH. intros y Hy. apply H. now right.
Qed.

(** Backtracking over alternatives that all continue the same way. *)
Lemma hd_flat_map_const {A B : Type} (f : A -> list B) l (out : list B) :
  l <> [] -> (forall x, In x l -> f x = out) ->
  hd_error (flat_map f l) = hd_error out.
Proof.
  destruct l as [|x l]; [congruence|]. intros _ H. simpl.
  rewrite (H x) by now left.
  destruct out as [|o out]; simpl; [|reflexivity].
  rewrite flat_map_nil; [reflexivity|].
  intros y Hy. apply H. now right.
Qed.

End TextFacts.

(** ** The matcher and [re.sub] *)

Module ReFacts.
Import Re.

Lemma run_lit (w s : text) (caps : captures) :
  run (lit w) s caps =
  if prefixb w s then [(skipn (List.length w) s, caps)] else [].
Proof.
  revert s; induction w as [|a w IH]; intros s; [reflexivity|].
  change (lit (a :: w)) with (Cat (Chr a) (lit w)).
  cbn [run]. destruct s as [|x s]; [reflexivity|].
  cbn [prefixb]. destruct (x =? a)%N; cbn [flat_map fst snd andb];
    [|reflexivity].
  rewrite IH, app_nil_r. reflexivity.
Qed.

(** What a greedy run leaves was reached by passing characters of the
    class only; and every such remainder is among the alternatives. *)
Lemma greedy_inv (p : char -> bool) (s s' : text) :
  In s' (greedy p s) -> exists a, s = a ++ s' /\ forallb p a = true.
Proof.
  revert s'; induction s as [|c s IH]; intros s' H; simpl in H.
  - destruct H as [<-|[]]. now exists [].
  - destruct (p c) eqn:Hc.
    + apply in_app_or in H as [H|[<-|[]]].
      * destruct (IH _ H) as (a & -> & Ha).
        exists (c :: a). simpl. now rewrite Hc, Ha.
      * now exists [].
    + destruct H as [<-|[]]. now exists [].
Qed.

Lemma greedy_self (p : char -> bool) (s : text) : In s (greedy p s).
Proof.
  destruct s as [|c s]; simpl; [now left|].
  destruct (p c); [apply in_or_app; right|]; now left.
Qed.

Lemma greedy_intro (p : char -> bool) (a s : text) :
  forallb p a = true -> In s (greedy p (a ++ s)).
Proof.
  induction a as [|c a IH]; simpl; intros H; [apply greedy_self|].
  apply andb_true_iff in H as [Hc Ha]. rewrite Hc.
  apply in_or_app. left. now apply IH.
Qed.

Lemma sub_from_cons (r : regex) (tpl : template) (c : char) (s : text) :
  sub_from r tpl 0 (c :: s) =
  match re_match r (c :: s) with
  | Some (rest, caps) =>
      expand tpl caps ++
      match List.length (c :: s) - List.length rest with
      | O => c :: sub_from r tpl 0 s
      | S k => sub_from r tpl k s
      end
  | None => c :: sub_from r tpl 0 s
  end.
Proof. reflexivity. Qed.

Lemma sub_from_skip (r : regex) (tpl : template) (a b : text) :
  sub_from r tpl (List.length a) (a ++ b) = sub_from r tpl 0 b.
Proof. induction a as [|c a IH]; [reflexivity|]. exact IH. Qed.

(** A match that consumes [m] is replaced, and the scan goes on after
    it. *)
Lemma sub_match (r : regex) (tpl : template) (m rest : text) caps :
  m <> [] -> re_match r (m ++ rest) = Some (rest, caps) ->
  sub r tpl (m ++ rest) = expand tpl caps ++ sub r tpl rest.
Proof.
  destruct m as [|c m]; [congruence|]. intros _ H.
  unfold sub. change ((c :: m) ++ rest) with (c :: m ++ rest) in *.
  rewrite sub_from_cons, H. f_equal.
  replace (List.length (c :: m ++ rest) - List.length rest)
    with (S (List.length m))
    by (cbn [List.length]; rewrite length_app; lia).
  apply sub_from_skip.
Qed.

(** Where the pattern does not match, one character is copied. *)
Lemma sub_nomatch (r : regex) (tpl : template) (c : char) (s : text) :
  re_match r (c :: s) = None -> sub r tpl (c :: s) = c :: sub r tpl s.
Proof. intros H. unfold sub. now rewrite sub_from_cons, H. Qed.

Lemma sub_nil_nomatch (r : regex) (tpl : template) :
  re_match r [] = None -> sub r tpl [] = [].
Proof. intros H. unfold sub. simpl. now rewrite H. Qed.

(** The output from a position the scan visits is the output of the scan
    started there. *)
Lemma scan_from_out (r : regex) (tpl : template) (s : text) :
  forall (k : nat) (input : text),
    In s (scan_from r k input) ->
    exists out, sub_from r tpl k input = out ++ sub_from r tpl 0 s.
Proof.
  intros k input; revert k.
  induction input as [|c input IH]; intros k H.
  - destruct k; simpl in H; [|contradiction].
    destruct H as [<-|[]]. now exists [].
  - destruct k as [|k].
    + cbn [scan_from] in H. destruct H as [<-|H]; [now exists []|].
      rewrite sub_from_cons.
      destruct (re_match r (c :: input)) as [[rest caps]|].
      * destruct (List.length (c :: input) - List.length rest).
        -- destruct (IH _ H) as [out ->].
           exists (expand tpl caps ++ c :: out).
           now rewrite <- app_assoc.
        -- destruct (IH _ H) as [out ->].
           exists (expand tpl caps ++ out). now rewrite <- app_assoc.
      * destruct (IH _ H) as [out ->]. now exists (c :: out).
    + cbn [scan_from] in H. cbn [sub_from]. now apply IH.
Qed.

Lemma scan_out (r : regex) (tpl : template) (input s : text) :
  In s (scan r input) -> exists out, sub r tpl input = out ++ sub r tpl s.
Proof. apply scan_from_out. Qed.

End ReFacts.

(** ** FieldInserter: how the pattern matches *)

Module FixTestsFacts.
Import Re ReFacts FixTests.

Lemma run_cat (r1 r2 : regex) (s : text) (caps : captures) :
  run (Cat r1 r2) s caps =
  flat_map (fun sc => run r2 (fst sc) (snd sc)) (run r1 s caps).
Proof. reflexivity. Qed.

Lemma run_group (n : nat) (r : regex) (s : text) (caps : captures) :
  run (Group n r) s caps =
  map (fun sc =>
         (fst sc,
          (n, firstn (List.length s - List.length (fst sc)) s) :: snd sc))
      (run r s caps).
Proof. reflexivity. Qed.

(** *** The character classes *)

Lemma space_not_comma (c : char) : is_space c = true -> c <> comma.
Proof. intros H ->. discriminate H. Qed.

Lemma value_not_comma (c : char) : not_comma_nl c = true -> c <> comma.
Proof. intros H ->. discriminate H. Qed.

Lemma space_not_letter (c : char) : is_space c = true -> is_letter c = false.
Proof.
  intros H. destruct (is_letter c) eqn:L; [|reflexivity].
  unfold is_space in H. unfold is_letter in L.
  rewrite ?orb_true_iff, ?andb_true_iff, ?N.leb_le, ?N.eqb_eq in *.
  lia.
Qed.

Lemma letter_not_space (c : char) : is_letter c = true -> is_space c = false.
Proof.
  intros L. destruct (is_space c) eqn:H; [|reflexivity].
  apply space_not_letter in H. congruence.
Qed.

Lemma no_comma_in (p : char -> bool) (a : text) :
  (forall c, p c = true -> c <> comma) ->
  forallb p a = true -> ~ In comma a.
Proof.
  intros Hp Ha Hin. rewrite forallb_forall in Ha.
  exact (Hp _ (Ha _ Hin) eq_refl).
Qed.

(** The first comma of a text is where it is. *)
Lemma first_comma (a a' r r' : text) :
  ~ In comma a -> ~ In comma a' ->
  a ++ comma :: r = a' ++ comma :: r' -> a = a' /\ r = r'.
Proof.
  revert a'; induction a as [|x a IH]; intros [|y a'] Ha Ha' E;
    simpl in *.
  - injection E as ->. now split.
  - injection E as <- _. exfalso. apply Ha'. now left.
  - injection E as -> _. exfalso. apply Ha. now left.
  - injection E as -> E.
    destruct (IH a') as [-> ->]; auto.
Qed.

(** *** Leading whitespace *)

Lemma space_split (s : text) : s = leading_space s ++ skip_space s.
Proof.
  induction s as [|c s IH]; simpl; [reflexivity|].
  destruct (is_space c); simpl; [now f_equal | reflexivity].
Qed.

Lemma leading_space_spaces (s : text) :
  forallb is_space (leading_space s) = true.
Proof.
  induction s as [|c s IH]; simpl; [reflexivity|].
  destruct (is_space c) eqn:Hc; simpl; [now rewrite Hc | reflexivity].
Qed.

Lemma skip_space_head (s : text) (c : char) (f : text) :
  skip_space s = c :: f -> is_space c = false.
Proof.
  induction s as [|x s IH]; simpl; [discriminate|].
  destruct (is_space x) eqn:Hx; [exact IH|]. now intros [= <- _].
Qed.

Lemma space_split_unique (ws : text) (c : char) (f : text) :
  forallb is_space ws = true -> is_space c = false ->
  leading_space (ws ++ c :: f) = ws /\ skip_space (ws ++ c :: f) = c :: f.
Proof.
  intros Hws Hc. induction ws as [|x ws IH]; simpl in *.
  - now rewrite Hc.
  - apply andb_true_iff in Hws as [Hx Hws]. rewrite Hx.
    destruct (IH Hws) as [-> ->]. now split.
Qed.

(** *** Group 1: the sentinel *)

Lemma run_value_in (s : text) (caps : captures) x :
  In x (run (Cat (Plus not_comma_nl) (Chr comma)) s caps) ->
  exists v, s = v ++ comma :: fst x /\ v <> [] /\
            forallb not_comma_nl v = true /\ snd x = caps.
Proof.
  intros H. rewrite run_cat in H.
  apply in_flat_map in H as ([s2 c2] & Hy & Hx). cbn [fst snd] in Hx.
  cbn [run] in Hy. destruct s as [|c s]; [contradiction|].
  destruct (not_comma_nl c) eqn:Hc; [|contradiction].
  apply in_map_iff in Hy as (s2' & [= <- <-] & Hs2).
  cbn [run] in Hx. destruct s2' as [|d s2]; [contradiction|].
  destruct (d =? comma)%N eqn:Hd; [|contradiction].
  destruct Hx as [<-|[]]. apply N.eqb_eq in Hd. subst d.
  apply greedy_inv in Hs2 as (a & -> & Ha).
  exists (c :: a). cbn [fst snd forallb]. rewrite Hc, Ha.
  repeat split; congruence.
Qed.

Lemma run_value_intro (v rest : text) (caps : captures) :
  v <> [] -> forallb not_comma_nl v = true ->
  In (rest, caps)
     (run (Cat (Plus not_comma_nl) (Chr comma)) (v ++ comma :: rest) caps).
Proof.
  destruct v as [|c v]; [congruence|]. intros _ H.
  cbn [forallb] in H. apply andb_true_iff in H as [Hc Hv].
  rewrite run_cat. apply in_flat_map. exists (comma :: rest, caps). split.
  - cbn [run app]. rewrite Hc.
    apply (in_map (fun s'' => (s'', caps))). now apply greedy_intro.
  - cbn [run fst snd]. rewrite N.eqb_refl. now left.
Qed.

(** Every way group 1 matches ends right after the first comma that
    follows [codeChange:]. *)
Lemma run_sentinel_in (s : text) (caps : captures) x :
  In x (run sentinel s caps) ->
  exists w v,
    s = key ++ w ++ v ++ comma :: fst x /\
    forallb is_space w = true /\ v <> [] /\
    forallb not_comma_nl v = true /\ snd x = caps.
Proof.
  unfold sentinel. intros H. rewrite run_cat in H.
  apply in_flat_map in H as ([s0 c0] & H0 & H). cbn [fst snd] in H.
  rewrite run_lit in H0.
  destruct (prefixb key s) eqn:Hk; [|contradiction].
  destruct H0 as [[= <- <-]|[]].
  rewrite run_cat in H.
  apply in_flat_map in H as ([s1 c1] & H1 & H). cbn [fst snd] in H.
  cbn [run] in H1. apply in_map_iff in H1 as (s1' & [= <- <-] & Hg).
  apply greedy_inv in Hg as (w & Hw & Hsp).
  apply run_value_in in H as (v & -> & Hne & Hv & Hcaps).
  exists w, v. repeat split; try assumption.
  rewrite (prefixb_split _ _ Hk) at 1. f_equal. exact Hw.
Qed.

Lemma run_sentinel_intro (w v rest : text) (caps : captures) :
  forallb is_space w = true -> v <> [] ->
  forallb not_comma_nl v = true ->
  In (rest, caps) (run sentinel (key ++ w ++ v ++ comma :: rest) caps).
Proof.
  intros Hw Hne Hv. unfold sentinel. rewrite run_cat.
  apply in_flat_map. exists (w ++ v ++ comma :: rest, caps). split.
  - rewrite run_lit, prefixb_app, prefixb_skipn_app. now left.
  - cbn [fst snd]. rewrite run_cat. apply in_flat_map.
    exists (v ++ comma :: rest, caps). split.
    + cbn [run]. apply (in_map (fun s' => (s', caps))).
      now apply greedy_intro.
    + cbn [fst snd]. now apply run_value_intro.
Qed.

Lemma run_sentinel_unique (w v rest : text) (caps : captures) x :
  forallb is_space w = true -> forallb not_comma_nl v = true ->
  In x (run sentinel (key ++ w ++ v ++ comma :: rest) caps) ->
  x = (rest, caps).
Proof.
  intros Hw Hv H.
  apply run_sentinel_in in H as (w' & v' & E & Hw' & _ & Hv' & Hc).
  apply app_inv_head in E. rewrite !app_assoc in E.
  apply first_comma in E as [_ E].
  - destruct x. cbn [fst snd] in *. congruence.
  - intros Hin. apply in_app_or in Hin as [Hin|Hin].
    + exact (no_comma_in _ _ space_not_comma Hw Hin).
    + exact (no_comma_in _ _ value_not_comma Hv Hin).
  - intros Hin. apply in_app_or in Hin as [Hin|Hin].
    + exact (no_comma_in _ _ space_not_comma Hw' Hin).
    + exact (no_comma_in _ _ value_not_comma Hv' Hin).
Qed.

(** *** Groups 2 and 3: the whitespace and the guarded letter *)

Lemma run_guard (f : text) (caps : captures) :
  run (Group 3 guard) f caps =
  match f with
  | c :: f' =>
      if is_letter c && negb (prefixb target f)
      then [(f', (3, [c]) :: caps)] else []
  | [] => []
  end.
Proof.
  rewrite run_group. unfold guard. rewrite run_cat.
  cbn [run]. rewrite run_lit.
  destruct (prefixb target f) eqn:Ht; cbn [flat_map map fst snd].
  - destruct f as [|c f']; [reflexivity|].
    now rewrite andb_false_r.
  - destruct f as [|c f']; [reflexivity|].
    rewrite andb_true_r, app_nil_r.
    destruct (is_letter c); [|reflexivity].
    cbn [map fst snd].
    replace (List.length (c :: f') - List.length f') with 1
      by (cbn [List.length]; lia).
    reflexivity.
Qed.

Lemma run_guard_space (c : char) (s : text) (caps : captures) :
  is_space c = true -> run (Group 3 guard) (c :: s) caps = [].
Proof.
  intros Hc. rewrite run_guard, (space_not_letter _ Hc). reflexivity.
Qed.

(** Backtracking into the whitespace run never helps: only the longest
    run can be followed by a letter. *)
Lemma greedy_then_guard (g : text -> captures) (u : text) :
  flat_map (fun s' => run (Group 3 guard) s' (g s')) (greedy is_space u) =
  run (Group 3 guard) (skip_space u) (g (skip_space u)).
Proof.
  induction u as [|c u IH]; cbn [greedy skip_space].
  - cbn [flat_map]. apply app_nil_r.
  - destruct (is_space c) eqn:Hc.
    + rewrite flat_map_app, IH. cbn [flat_map].
      rewrite (run_guard_space _ _ _ Hc). now rewrite !app_nil_r.
    + cbn [flat_map]. apply app_nil_r.
Qed.

Lemma firstn_leading_space (s : text) :
  firstn (List.length s - List.length (skip_space s)) s = leading_space s.
Proof.
  rewrite (space_split s) at 1 3. apply firstn_consumed.
Qed.

Lemma run_tail (rest : text) (caps : captures) :
  run (Cat (Group 2 (Star is_space)) (Group 3 guard)) rest caps =
  run (Group 3 guard) (skip_space rest) ((2, leading_space rest) :: caps).
Proof.
  rewrite run_cat, run_group. cbn [run]. rewrite !flat_map_map.
  cbn [fst snd].
  rewrite (greedy_then_guard
             (fun s' =>
                (2, firstn (List.length rest - List.length s') rest)
                  :: caps)).
  now rewrite firstn_leading_space.
Qed.

(** *** The whole pattern at a sentinel *)

(** At a text that starts with [codeChange:], whitespace [w], a value
    [v] free of commas and newlines and a comma, the pattern matches or
    not according to what follows the whitespace after the comma. *)
Lemma match_shape (w v rest : text) :
  forallb is_space w = true -> v <> [] ->
  forallb not_comma_nl v = true ->
  re_match pattern (key ++ w ++ v ++ comma :: rest) =
  match skip_space rest with
  | c :: f' =>
      if is_letter c && negb (prefixb target (c :: f'))
      then Some (f', [(3, [c]); (2, leading_space rest);
                      (1, key ++ w ++ v ++ [comma])])
      else None
  | [] => None
  end.
Proof.
  intros Hw Hne Hv. unfold re_match, pattern.
  rewrite run_cat, run_group.
  set (s := key ++ w ++ v ++ comma :: rest).
  rewrite (hd_flat_map_const _ _
             (run (Cat (Group 2 (Star is_space)) (Group 3 guard))
                  rest [(1, key ++ w ++ v ++ [comma])])).
  - rewrite run_tail, run_guard.
    destruct (skip_space rest) as [|c f']; [reflexivity|].
    now destruct (is_letter c && negb (prefixb target (c :: f'))).
  - intros E.
    pose proof (run_sentinel_intro w v rest [] Hw Hne Hv) as Hin.
    fold s in Hin.
    apply (in_map (fun sc =>
                     (fst sc,
                      (1, firstn (List.length s - List.length (fst sc)) s)
                        :: snd sc))) in Hin.
    rewrite E in Hin. exact Hin.
  - intros x Hx. apply in_map_iff in Hx as (y & <- & Hy).
    apply (run_sentinel_unique w v rest [] y Hw Hv) in Hy. subst y.
    cbn [fst snd]. do 3 f_equal.
    replace s with ((key ++ w ++ v ++ [comma]) ++ rest)
      by (unfold s; now rewrite <- !app_assoc).
    apply firstn_consumed.
Qed.

Lemma hd_error_in {A : Type} (l : list A) (x : A) :
  hd_error l = Some x -> In x l.
Proof. destruct l; simpl; [discriminate|]. intros [= ->]. now left. Qed.

(** Conversely the pattern matches only at such a text. *)
Lemma match_inv (s rest : text) (caps : captures) :
  re_match pattern s = Some (rest, caps) ->
  exists w v rest1,
    s = key ++ w ++ v ++ comma :: rest1 /\
    forallb is_space w = true /\ v <> [] /\
    forallb not_comma_nl v = true.
Proof.
  intros H. apply hd_error_in in H. unfold pattern in H.
  rewrite run_cat, run_group in H.
  apply in_flat_map in H as (y & Hy & _).
  apply in_map_iff in Hy as (z & _ & Hz).
  apply run_sentinel_in in Hz as (w & v & E & Hw & Hne & Hv & _).
  now exists w, v, (fst z).
Qed.

(** *** What [add_org_pressure] does at a sentinel *)

Lemma expand_replacement (g1 g2 g3 : text) :
  expand replacement [(3, g3); (2, g2); (1, g1)] =
  g1 ++ g2 ++ inserted ++ g2 ++ g3.
Proof.
  unfold replacement, expand. cbn [flat_map group Nat.eqb].
  now rewrite app_nil_r.
Qed.

Lemma insert_at (w v ws : text) (c : char) (rest' : text) :
  forallb is_space w = true -> v <> [] ->
  forallb not_comma_nl v = true ->
  forallb is_space ws = true -> is_letter c = true ->
  prefixb target (c :: rest') = false ->
  add_org_pressure (key ++ w ++ v ++ [comma] ++ ws ++ c :: rest') =
  key ++ w ++ v ++ [comma] ++ ws ++ inserted ++ ws
      ++ c :: add_org_pressure rest'.
Proof.
  intros Hw Hne Hv Hws Hc Ht.
  pose proof (match_shape w v (ws ++ c :: rest') Hw Hne Hv) as M.
  destruct (space_split_unique ws c rest' Hws (letter_not_space _ Hc))
    as [El Es].
  rewrite El, Es, Hc, Ht in M. cbn [andb negb] in M.
  unfold add_org_pressure.
  replace (key ++ w ++ v ++ [comma] ++ ws ++ c :: rest')
    with ((key ++ w ++ v ++ [comma] ++ ws ++ [c]) ++ rest')
    by (now rewrite <- !app_assoc).
  rewrite (sub_match pattern replacement _ rest'
             [(3, [c]); (2, ws); (1, key ++ w ++ v ++ [comma])]).
  - rewrite expand_replacement. now rewrite <- !app_assoc.
  - intros E. apply app_eq_nil in E as [E _]. vm_compute in E.
    discriminate E.
  - rewrite <- !app_assoc. exact M.
Qed.

Lemma no_key_no_match (s : text) :
  prefixb key s = false -> re_match pattern s = None.
Proof.
  intros H. destruct (re_match pattern s) as [[rest caps]|] eqn:M;
    [|reflexivity].
  apply match_inv in M as (w & v & rest1 & -> & _).
  now rewrite prefixb_app in H.
Qed.

Lemma scan_self (r : regex) (s : text) : In s (scan r s).
Proof. unfold scan. destruct s; cbn [scan_from]; now left. Qed.

(** Text before which [codeChange:] does not begin is copied, and the
    scan arrives at what follows it. *)
Lemma scan_past_prefix (pre s : text) :
  (forall p1 p2, pre = p1 ++ p2 -> p2 <> [] ->
                 prefixb key (p2 ++ s) = false) ->
  In s (scan pattern (pre ++ s))
  /\ add_org_pressure (pre ++ s) = pre ++ add_org_pressure s.
Proof.
  induction pre as [|c pre IH]; intros H.
  - split; [apply scan_self | reflexivity].
  - assert (N : re_match pattern (c :: pre ++ s) = None).
    { apply no_key_no_match. apply (H [] (c :: pre)); [reflexivity|].
      discriminate. }
    destruct IH as [IHs IHa].
    { intros p1 p2 E. apply (H (c :: p1) p2). now rewrite E. }
    cbn [app]. split.
    + unfold scan. cbn [scan_from]. rewrite N. right. exact IHs.
    + unfold add_org_pressure in *. rewrite (sub_nomatch _ _ _ _ N).
      now rewrite IHa.
Qed.

End FixTestsFacts.

(** ** FieldInserter: the specification's statements *)

Module FixTestsSpec.
Import Re ReFacts FixTests FixTestsFacts Examples.

(** C5.  On [codeChange: "refactor", severity: 2] the substitution gives
    [codeChange: "refactor", organisationalPressure: 1, severity: 2]. *)
Theorem C5_refactor_example : add_org_pressure refactor_in = refactor_out.
Proof. vm_compute. reflexivity. Qed.

(** C6.  On the text that already has the field after the sentinel,
    [codeChange: "refactor", organisationalPressure: 1, severity: 2],
    the substitution changes nothing. *)
Theorem C6_refactor_idempotent :
  add_org_pressure refactor_out = refactor_out
  /\ add_org_pressure (add_org_pressure refactor_in)
     = add_org_pressure refactor_in.
Proof. split; vm_compute; reflexivity. Qed.

(** C7.  When the sentinel and [organisationalPressure: 1,] are on two
    lines, the whitespace run of group 2 passes the line break, the
    lookahead sees the field, and nothing is inserted: the pattern does
    not match and the text is unchanged. *)
Theorem C7_line_break_not_duplicated :
  re_match pattern line_break_in = None
  /\ add_org_pressure line_break_in = line_break_in.
Proof. split; vm_compute; reflexivity. Qed.

(** C2 as stated fails: a sentinel that begins at the letter which the
    match before it consumed as its group 3 is never tried.  In
    [codeChange: a,codeChange: b, x] and in
    [{ codeChange: 1, codeChange: 2, x: 3 }] the second sentinel is
    followed by a space and the letter [x], nothing suppresses the
    insertion, and yet the field is inserted after the first sentinel
    only. *)
Lemma C2_counterexample :
  (adjacent_fields =
     str "codeChange: a," ++ key ++ str " " ++ str "b" ++ comma :: str " x"
   /\ suppressed (str " x") = false
   /\ ~ In (key ++ str " " ++ str "b" ++ comma :: str " x")
          (scan pattern adjacent_fields)
   /\ add_org_pressure adjacent_fields =
      str "codeChange: a,organisationalPressure: 1,codeChange: b, x"
   /\ occurs (str "codeChange: b, organisationalPressure")
             (add_org_pressure adjacent_fields) = false)
  /\ (two_fields =
        str "{ codeChange: 1, " ++ key ++ str " " ++ str "2"
            ++ comma :: str " x: 3 }"
      /\ suppressed (str " x: 3 }") = false
      /\ add_org_pressure two_fields = two_fields_out
      /\ occurs (str "codeChange: 2, organisationalPressure")
                (add_org_pressure two_fields) = false).
Proof.
  split; [split; [reflexivity|split; [reflexivity|split]]|].
  - vm_compute. intros H.
    repeat (destruct H as [H|H]; [discriminate H|]). exact H.
  - split; vm_compute; reflexivity.
  - repeat split; vm_compute; reflexivity.
Qed.

(** C2, as amended.  At every position of any input that the scan visits
    (a position not inside the text an earlier match consumed) and where
    the text starts with a sentinel ([codeChange:], whitespace, a value
    free of commas and newlines, a comma): no insertion is made exactly
    when the first character after the whitespace that follows the
    comma is not an ASCII letter (or there is none) or the text there
    starts with [organisationalPressure].  When suppressed, the pattern
    does not match and the scan copies one character; otherwise the
    field is inserted after the sentinel. *)
Theorem C2_suppressed_iff (input s w v rest : text) :
  In s (scan pattern input) ->
  s = key ++ w ++ v ++ comma :: rest ->
  forallb is_space w = true -> v <> [] ->
  forallb not_comma_nl v = true ->
  (re_match pattern s = None <-> suppressed rest = true)
  /\ (suppressed rest = true ->
      exists out,
        add_org_pressure input =
        out ++ firstn 1 s ++ add_org_pressure (skipn 1 s))
  /\ (suppressed rest = false ->
      exists out,
        add_org_pressure input =
        out ++ key ++ w ++ v ++ [comma]
            ++ leading_space rest ++ inserted ++ leading_space rest
            ++ firstn 1 (skip_space rest)
            ++ add_org_pressure (skipn 1 (skip_space rest))).
Proof.
  intros Hscan -> Hw Hne Hv.
  pose proof (match_shape w v rest Hw Hne Hv) as M.
  destruct (scan_out pattern replacement _ _ Hscan) as [out Hout].
  fold (add_org_pressure input) in Hout.
  fold (add_org_pressure (key ++ w ++ v ++ comma :: rest)) in Hout.
  assert (Hsup : suppressed rest = true ->
                 re_match pattern (key ++ w ++ v ++ comma :: rest) = None).
  { unfold suppressed. intros S. rewrite M.
    destruct (skip_space rest) as [|c f']; [reflexivity|].
    cbn [starts_with_letter] in S.
    destruct (is_letter c), (prefixb target (c :: f'));
      try reflexivity; discriminate S. }
  split; [split|split].
  - intros N. unfold suppressed. rewrite M in N.
    destruct (skip_space rest) as [|c f']; [reflexivity|].
    cbn [starts_with_letter].
    destruct (is_letter c), (prefixb target (c :: f'));
      try reflexivity; discriminate N.
  - exact Hsup.
  - intros S. exists out. rewrite Hout. f_equal.
    apply Hsup in S. unfold add_org_pressure.
    remember (key ++ w ++ v ++ comma :: rest) as s eqn:Es.
    destruct s as [|c0 s'].
    + apply (f_equal (@List.length char)) in Es.
      rewrite length_app in Es. vm_compute in Es. discriminate Es.
    + rewrite (sub_nomatch _ _ _ _ S). reflexivity.
  - intros S. exists out. rewrite Hout. f_equal.
    unfold suppressed in S.
    pose proof (space_split rest) as Er.
    pose proof (leading_space_spaces rest) as Hl.
    destruct (skip_space rest) as [|c f'] eqn:Ef;
      cbn [starts_with_letter] in S; [discriminate S|].
    apply orb_false_iff in S as [Sl St].
    apply negb_false_iff in Sl.
    rewrite Er at 1.
    change (key ++ w ++ v ++ comma :: leading_space rest ++ c :: f')
      with (key ++ w ++ v ++ [comma] ++ leading_space rest ++ c :: f').
    rewrite (insert_at w v (leading_space rest) c f' Hw Hne Hv Hl Sl St).
    reflexivity.
Qed.

(** C9.  At every position the scan visits where the pattern matches,
    the text is a sentinel, a whitespace run [ws] and a letter, and the
    output there is the sentinel, [ws], the inserted field, [ws] again
    and the letter: the separator between the sentinel's comma and the
    next field is emitted twice. *)
Theorem C9_separator_emitted_twice
  (input s rest : text) (caps : captures) :
  In s (scan pattern input) ->
  re_match pattern s = Some (rest, caps) ->
  exists w v ws c out,
    s = key ++ w ++ v ++ [comma] ++ ws ++ c :: rest
    /\ forallb is_space w = true /\ v <> []
    /\ forallb not_comma_nl v = true
    /\ forallb is_space ws = true /\ is_letter c = true
    /\ group caps 2 = ws
    /\ add_org_pressure input =
       out ++ key ++ w ++ v ++ [comma]
           ++ ws ++ inserted ++ ws ++ c :: add_org_pressure rest.
Proof.
  intros Hscan Hm.
  destruct (match_inv _ _ _ Hm) as (w & v & rest1 & -> & Hw & Hne & Hv).
  rewrite (match_shape w v rest1 Hw Hne Hv) in Hm.
  pose proof (space_split rest1) as Er.
  pose proof (leading_space_spaces rest1) as Hl.
  destruct (skip_space rest1) as [|c f']; [discriminate Hm|].
  destruct (is_letter c) eqn:Hc; [|discriminate Hm].
  destruct (prefixb target (c :: f')) eqn:Ht; [discriminate Hm|].
  cbn [andb negb] in Hm. injection Hm as <- <-.
  destruct (scan_out pattern replacement _ _ Hscan) as [out Hout].
  exists w, v, (leading_space rest1), c, out.
  repeat split; try assumption.
  - now rewrite Er at 1.
  - unfold add_org_pressure. rewrite Hout. f_equal.
    rewrite Er at 1.
    exact (insert_at w v (leading_space rest1) c f' Hw Hne Hv Hl Hc Ht).
Qed.

(** C10, as amended.  At every position of any input that the scan
    visits and where a [codeChange] field starts whose value has, before
    its first comma, a text that is not empty and has no line break,
    and after that comma whitespace and a letter that does not start
    the text [organisationalPressure]: the value pattern stops at that
    first comma (group 1 ends there) and the field is inserted right
    after it, inside the value.  When no [codeChange:] begins before the
    field, all the text before it is copied unchanged.  On
    [codeChange: f(a, b), severity: 2] the result is
    [codeChange: f(a, organisationalPressure: 1, b), severity: 2], and
    likewise inside [{ ... }]. *)
Theorem C10_inserted_after_first_comma
  (input s w v ws : text) (c : char) (rest' : text) :
  In s (scan pattern input) ->
  s = key ++ w ++ v ++ [comma] ++ ws ++ c :: rest' ->
  forallb is_space w = true -> v <> [] ->
  forallb not_comma_nl v = true ->
  forallb is_space ws = true -> is_letter c = true ->
  prefixb target (c :: rest') = false ->
  (exists caps,
     re_match pattern s = Some (rest', caps)
     /\ group caps 1 = key ++ w ++ v ++ [comma])
  /\ (exists out,
        add_org_pressure input =
        out ++ key ++ w ++ v ++ [comma] ++ ws ++ inserted ++ ws
            ++ c :: add_org_pressure rest')
  /\ (forall pre,
        input = pre ++ s ->
        (forall p1 p2, pre = p1 ++ p2 -> p2 <> [] ->
                       prefixb key (p2 ++ s) = false) ->
        add_org_pressure input =
        pre ++ key ++ w ++ v ++ [comma] ++ ws ++ inserted ++ ws
            ++ c :: add_org_pressure rest')
  /\ add_org_pressure call_in = call_out
  /\ add_org_pressure braces_call_in = braces_call_out.
Proof.
  intros Hscan -> Hw Hne Hv Hws Hc Ht.
  pose proof (insert_at w v ws c rest' Hw Hne Hv Hws Hc Ht) as Hins.
  split; [|split; [|split; [|split]]].
  - pose proof (match_shape w v (ws ++ c :: rest') Hw Hne Hv) as M.
    destruct (space_split_unique ws c rest' Hws (letter_not_space _ Hc))
      as [El Es].
    rewrite El, Es, Hc, Ht in M. cbn [andb negb] in M.
    eexists. split; [exact M | reflexivity].
  - destruct (scan_out pattern replacement _ _ Hscan) as [out Hout].
    exists out. unfold add_org_pressure in *. now rewrite Hout, Hins.
  - intros pre -> Hpre.
    destruct (scan_past_prefix pre _ Hpre) as [_ E].
    now rewrite E, Hins.
  - vm_compute. reflexivity.
  - vm_compute. reflexivity.
Qed.

(** C10 as stated fails.  In [codeChange: f(a, organisationalPressure),
    severity: 2] the value has a comma followed by a space and the
    letter [o], and nothing is inserted.  Nor is anything inserted in
    the value when its first comma is followed by a digit, when the
    field follows another [codeChange] field whose match consumed its
    first letter, when the text before the first comma has a line
    break, or when there is no text before the first comma. *)
Lemma C10_counterexample :
  (call_target =
     key ++ str " " ++ str "f(a" ++ [comma] ++ str " "
         ++ 111%N :: str "rganisationalPressure), severity: 2"
   /\ is_letter 111%N = true
   /\ re_match pattern call_target = None
   /\ add_org_pressure call_target = call_target
   /\ add_org_pressure call_target <>
      str "codeChange: f(a, organisationalPressure: 1, organisationalPressure), severity: 2")
  /\ add_org_pressure call_digit = call_digit
  /\ add_org_pressure call_second = call_second_out
  /\ add_org_pressure call_newline = call_newline
  /\ add_org_pressure call_empty = call_empty.
Proof. repeat split; vm_compute; try reflexivity; discriminate. Qed.

(** C8.  With no command-line argument [sys.argv] holds the script's
    name only; [sys.argv[1]] raises [IndexError] before any file is
    read or written and before anything is printed: the world is left
    as it was and the exit status is not zero. *)
Theorem C8_no_argument
  (FS : Type) (os : Py.OS FS) (prog : string) (w : Py.world FS) :
  main os [prog] w =
    (inl {| Py.exc_class := "IndexError";
            Py.exc_msg := "list index out of range" |}, w)
  /\ Py.exit_status (fst (main os [prog] w)) <> 0.
Proof. split; [reflexivity | discriminate]. Qed.

(** C2 at the first example of the specification: the text after the
    comma is [ severity: 2], a letter follows the space, the field is
    inserted. *)
Lemma C2_suppressed_iff_witness :
  In refactor_in (scan pattern refactor_in)
  /\ refactor_in = key ++ str " " ++ refactor_value
                       ++ comma :: str " severity: 2"
  /\ forallb is_space (str " ") = true
  /\ refactor_value <> []
  /\ forallb not_comma_nl refactor_value = true
  /\ ((re_match pattern refactor_in = None
       <-> suppressed (str " severity: 2") = true)
      /\ (suppressed (str " severity: 2") = true ->
          exists out,
            add_org_pressure refactor_in =
            out ++ firstn 1 refactor_in
                ++ add_org_pressure (skipn 1 refactor_in))
      /\ (suppressed (str " severity: 2") = false ->
          exists out,
            add_org_pressure refactor_in =
            out ++ key ++ str " " ++ refactor_value ++ [comma]
                ++ leading_space (str " severity: 2") ++ inserted
                ++ leading_space (str " severity: 2")
                ++ firstn 1 (skip_space (str " severity: 2"))
                ++ add_org_pressure
                     (skipn 1 (skip_space (str " severity: 2"))))).
Proof.
  split; [vm_compute; left; reflexivity|].
  split; [reflexivity|].
  split; [reflexivity|].
  split; [discriminate|].
  split; [reflexivity|].
  apply (C2_suppressed_iff refactor_in refactor_in (str " ") refactor_value
           (str " severity: 2")).
  - vm_compute. left. reflexivity.
  - reflexivity.
  - reflexivity.
  - discriminate.
  - reflexivity.
Defined.

(** C9 on a field that has a line of its own: the line break and the
    indentation are emitted before the inserted field and again before
    the next field. *)
Lemma C9_separator_emitted_twice_witness :
  In indented_in (scan pattern indented_in)
  /\ re_match pattern indented_in = Some (str "everity: 2", indented_caps)
  /\ exists w v ws c out,
       indented_in = key ++ w ++ v ++ [comma] ++ ws ++ c :: str "everity: 2"
       /\ forallb is_space w = true /\ v <> []
       /\ forallb not_comma_nl v = true
       /\ forallb is_space ws = true /\ is_letter c = true
       /\ group indented_caps 2 = ws
       /\ add_org_pressure indented_in =
          out ++ key ++ w ++ v ++ [comma]
              ++ ws ++ inserted ++ ws
              ++ c :: add_org_pressure (str "everity: 2").
Proof.
  split; [vm_compute; left; reflexivity|].
  split; [vm_compute; reflexivity|].
  apply (C9_separator_emitted_twice indented_in indented_in
           (str "everity: 2") indented_caps).
  - vm_compute. left. reflexivity.
  - vm_compute. reflexivity.
Defined.

Lemma indented_example : add_org_pressure indented_in = indented_out.
Proof. vm_compute. reflexivity. Qed.

(** C10 as amended, on [{ codeChange: f(a, b), severity: 2 }]. *)
Lemma C10_inserted_after_first_comma_witness :
  In (str "codeChange: f(a, b), severity: 2 }") (scan pattern braces_call_in)
  /\ str "codeChange: f(a, b), severity: 2 }" =
     key ++ str " " ++ str "f(a" ++ [comma] ++ str " "
         ++ 98%N :: str "), severity: 2 }"
  /\ forallb is_space (str " ") = true
  /\ str "f(a" <> []
  /\ forallb not_comma_nl (str "f(a") = true
  /\ is_letter 98%N = true
  /\ prefixb target (98%N :: str "), severity: 2 }") = false
  /\ ((exists caps,
         re_match pattern (str "codeChange: f(a, b), severity: 2 }")
         = Some (str "), severity: 2 }", caps)
         /\ group caps 1 = key ++ str " " ++ str "f(a" ++ [comma])
      /\ (exists out,
            add_org_pressure braces_call_in =
            out ++ key ++ str " " ++ str "f(a" ++ [comma] ++ str " "
                ++ inserted ++ str " "
                ++ 98%N :: add_org_pressure (str "), severity: 2 }"))
      /\ (forall pre,
            braces_call_in = pre ++ str "codeChange: f(a, b), severity: 2 }" ->
            (forall p1 p2, pre = p1 ++ p2 -> p2 <> [] ->
               prefixb key
                 (p2 ++ str "codeChange: f(a, b), severity: 2 }") = false) ->
            add_org_pressure braces_call_in =
            pre ++ key ++ str " " ++ str "f(a" ++ [comma] ++ str " "
                ++ inserted ++ str " "
                ++ 98%N :: add_org_pressure (str "), severity: 2 }"))
      /\ add_org_pressure call_in = call_out
      /\ add_org_pressure braces_call_in = braces_call_out).
Proof.
  split; [vm_compute; right; right; left; reflexivity|].
  split; [reflexivity|].
  split; [reflexivity|].
  split; [discriminate|].
  split; [reflexivity|].
  split; [reflexivity|].
  split; [reflexivity|].
  apply (C10_inserted_after_first_comma braces_call_in
           (str "codeChange: f(a, b), severity: 2 }")
           (str " ") (str "f(a") (str " ") 98%N (str "), severity: 2 }")).
  - vm_compute. right. right. left. reflexivity.
  - reflexivity.
  - reflexivity.
  - discriminate.
  - reflexivity.
  - reflexivity.
  - reflexivity.
  - reflexivity.
Defined.

End FixTestsSpec.

(** ** StyleTokenRewriter: literal substitution *)

Module FixBordersFacts.
Import Re ReFacts FixBorders Overlap.

Lemma prefixb_weaken (w a b : text) :
  prefixb w a = true -> prefixb w (a ++ b) = true.
Proof.
  intros H. rewrite prefixb_app_short; [assumption|].
  now apply prefixb_length.
Qed.

Lemma prefixb_drop (w a s : text) :
  prefixb w (a ++ s) = true -> List.length a <= List.length w ->
  prefixb (skipn (List.length a) w) s = true.
Proof.
  revert w; induction a as [|x a IH]; intros w H Hlen; [exact H|].
  destruct w as [|y w]; cbn [List.length] in Hlen; [lia|].
  cbn [app prefixb] in H. apply andb_true_iff in H as [_ H].
  cbn [List.length skipn]. apply IH; [assumption | lia].
Qed.

Section Literal.
Variables old new : text.
Hypothesis old_ne : 1 <= List.length old.

Let rep : text -> text := sub (lit old) [TLit new].

Lemma match_lit (s : text) :
  re_match (lit old) s =
  if prefixb old s then Some (skipn (List.length old) s, []) else None.
Proof.
  unfold re_match. rewrite run_lit. now destruct (prefixb old s).
Qed.

Lemma rep_hit (t : text) : rep (old ++ t) = new ++ rep t.
Proof.
  unfold rep. rewrite (sub_match (lit old) [TLit new] old t []).
  - cbn [expand flat_map]. now rewrite app_nil_r.
  - destruct old; [cbn [List.length] in old_ne; lia | discriminate].
  - now rewrite match_lit, prefixb_app, prefixb_skipn_app.
Qed.

Lemma rep_miss (c : char) (s : text) :
  prefixb old (c :: s) = false -> rep (c :: s) = c :: rep s.
Proof.
  intros H. unfold rep. apply sub_nomatch. now rewrite match_lit, H.
Qed.

Lemma rep_nil : rep [] = [].
Proof.
  unfold rep. apply sub_nil_nomatch. rewrite match_lit.
  destruct old; [cbn [List.length] in old_ne; lia | reflexivity].
Qed.

(** The substitution splits at a point no occurrence of [old] lies
    across. *)
Lemma rep_app (a b : text) :
  (forall a1 a2, a = a1 ++ a2 -> a2 <> [] ->
                 List.length a2 < List.length old ->
                 prefixb old (a2 ++ b) = false) ->
  rep (a ++ b) = rep a ++ rep b.
Proof.
  remember (List.length a) as n eqn:En. revert a En.
  induction n as [n IH] using lt_wf_ind. intros a En Hclear.
  destruct a as [|c a']; [now rewrite rep_nil|].
  destruct (prefixb old ((c :: a') ++ b)) eqn:P.
  - destruct (le_lt_dec (List.length old) (List.length (c :: a')))
      as [Hle|Hlt].
    + rewrite prefixb_app_short in P by assumption.
      apply prefixb_split in P.
      set (a'' := skipn (List.length old) (c :: a')) in *.
      rewrite P, <- app_assoc, !rep_hit, <- app_assoc. f_equal.
      apply (IH (List.length a'')); [|reflexivity|].
      * rewrite En, P at 1. rewrite length_app. lia.
      * intros a1 a2 E. apply (Hclear (old ++ a1) a2).
        now rewrite P, E, app_assoc.
    + rewrite (Hclear [] (c :: a')) in P;
        [discriminate P | reflexivity | discriminate | assumption].
  - cbn [app] in *. rewrite (rep_miss _ _ P).
    assert (P' : prefixb old (c :: a') = false).
    { destruct (prefixb old (c :: a')) eqn:Q; [|reflexivity].
      apply (prefixb_weaken _ _ b) in Q. cbn [app] in Q. congruence. }
    rewrite (rep_miss _ _ P'). cbn [app]. f_equal.
    apply (IH (List.length a')); [cbn [List.length] in En; lia
                                 |reflexivity|].
    intros a1 a2 E. apply (Hclear (c :: a1) a2). now rewrite E.
Qed.

Lemma clear_left_ok (m a2 post : text) :
  clear_left old m = true -> a2 <> [] ->
  List.length a2 < List.length old ->
  prefixb old (a2 ++ m ++ post) = false.
Proof.
  intros Hc Hne Hlt.
  destruct (prefixb old (a2 ++ m ++ post)) eqn:P; [exfalso|reflexivity].
  unfold clear_left in Hc. rewrite forallb_forall in Hc.
  assert (Hk : In (List.length a2) (seq 1 (List.length old - 1))).
  { apply in_seq. destruct a2; [congruence|]. cbn [List.length] in *.
    lia. }
  apply Hc in Hk. apply andb_true_iff in Hk as [H1 H2].
  apply negb_true_iff in H1, H2.
  apply prefixb_drop in P; [|lia].
  set (r := skipn (List.length a2) old) in *.
  destruct (le_lt_dec (List.length r) (List.length m)) as [Hle|Hgt].
  - rewrite prefixb_app_short in P by assumption. congruence.
  - apply prefixb_app_long in P; [congruence | lia].
Qed.

Lemma clear_right_ok (m a1 a2 post : text) :
  clear_right old m = true -> m = a1 ++ a2 -> a2 <> [] ->
  List.length a2 < List.length old ->
  prefixb old (a2 ++ post) = false.
Proof.
  intros Hc -> Hne Hlt.
  destruct (prefixb old (a2 ++ post)) eqn:P; [exfalso|reflexivity].
  apply prefixb_app_long in P; [|lia].
  unfold clear_right in Hc. rewrite forallb_forall in Hc.
  assert (Hj : In (List.length a1) (seq 0 (List.length (a1 ++ a2)))).
  { apply in_seq. rewrite length_app. destruct a2; [congruence|].
    cbn [List.length]. lia. }
  apply Hc in Hj. rewrite prefixb_skipn_app in Hj.
  apply orb_true_iff in Hj as [Hj|Hj].
  - apply Nat.leb_le in Hj. lia.
  - apply negb_true_iff in Hj. congruence.
Qed.

Lemma rep_isolated (m pre post : text) :
  clear_left old m = true -> clear_right old m = true ->
  rep (pre ++ m ++ post) = rep pre ++ rep m ++ rep post.
Proof.
  intros Hl Hr. rewrite rep_app.
  - f_equal. apply rep_app. intros a1 a2 E Hne Hlt.
    now apply (clear_right_ok m a1 a2 post).
  - intros a1 a2 _ Hne Hlt. now apply clear_left_ok.
Qed.

End Literal.

Lemma re_sub_isolated (old new : string) (m pre post : text) :
  isolated (str old) m = true ->
  re_sub old new (pre ++ m ++ post) =
  re_sub old new pre ++ re_sub old new m ++ re_sub old new post.
Proof.
  unfold isolated. intros H.
  apply andb_true_iff in H as [H Hr]. apply andb_true_iff in H as [Hn Hl].
  apply Nat.leb_le in Hn. unfold re_sub. now apply rep_isolated.
Qed.

(** A token that every rule leaves clear is rewritten on its own,
    whatever text surrounds it. *)
Lemma apply_rules_isolated (rules : list (string * string)) :
  forall m pre post,
    isolated_through rules m = true ->
    apply_rules rules (pre ++ m ++ post) =
    apply_rules rules pre ++ apply_rules rules m ++ apply_rules rules post.
Proof.
  induction rules as [|[old new] rules IH]; intros m pre post H;
    [reflexivity|].
  cbn [isolated_through] in H. apply andb_true_iff in H as [H1 H2].
  unfold apply_rules in *. cbn [fold_left fst snd].
  rewrite (re_sub_isolated old new m pre post H1). now apply IH.
Qed.

End FixBordersFacts.

(** ** The interpreter's effects: what the loop of StyleTokenRewriter does *)

Module FixBordersRun.
Import Py FixBorders.

Section Run.
Variable FS : Type.
Variable os : OS FS.

Lemma fix_file_returns (filepath : string) (w : world FS) :
  fix_file os filepath w = (inr tt, turn os w filepath).
Proof.
  unfold turn, fix_file, try_except.
  destruct (fix_body os filepath w) as [[e|[]] w']; reflexivity.
Qed.

Lemma for_each_returns (l : list string) (w : world FS) :
  for_each l (fix_file os) w = (inr tt, fold_left (turn os) l w).
Proof.
  revert w; induction l as [|p l IH]; intros w; [reflexivity|].
  cbn [for_each fold_left]. unfold bind.
  rewrite fix_file_returns. apply IH.
Qed.

Lemma main_returns (w : world FS) :
  main os w = (inr tt, print_line "Done!" (fold_left (turn os) files_to_fix w)).
Proof.
  unfold main, bind. rewrite for_each_returns. reflexivity.
Qed.

(** A [try] body that raises has printed nothing. *)
Lemma fix_body_raises_silent (filepath : string) (w : world FS) e :
  fst (fix_body os filepath w) = inl e ->
  stdout (snd (fix_body os filepath w)) = stdout w.
Proof.
  unfold fix_body, bind, read_file, write_file, print.
  destruct (os_read os (files w) filepath) as [e'|content];
    [reflexivity|].
  destruct (os_write os (files w) filepath (rewrite content))
    as [fs' [e'|]]; cbn; [reflexivity | discriminate].
Qed.

Lemma fix_file_raised (filepath : string) (w : world FS) e :
  fst (fix_body os filepath w) = inl e ->
  turn os w filepath =
  print_line ("Error fixing " ++ filepath ++ ": " ++ exc_msg e)
             (snd (fix_body os filepath w)).
Proof.
  unfold turn, fix_file, try_except.
  destruct (fix_body os filepath w) as [[e'|[]] w']; cbn;
    [now intros [= ->] | discriminate].
Qed.

(** Every turn prints exactly one line. *)
Lemma turn_prints (filepath : string) (w : world FS) :
  exists line, stdout (turn os w filepath) = stdout w ++ [line].
Proof.
  unfold turn, fix_file, try_except.
  destruct (fix_body os filepath w) as [[e|[]] w'] eqn:B.
  - pose proof (fix_body_raises_silent filepath w e) as S.
    rewrite B in S. cbn [fst snd] in *. rewrite <- (S eq_refl).
    eexists. reflexivity.
  - revert B. unfold fix_body, bind, read_file, write_file, print.
    destruct (os_read os (files w) filepath) as [e'|content];
      [discriminate|].
    destruct (os_write os (files w) filepath (rewrite content))
      as [fs' [e'|]]; [discriminate|].
    intros [= <-]. eexists. reflexivity.
Qed.

Lemma turns_print (l : list string) (w : world FS) :
  exists lines,
    stdout (fold_left (turn os) l w) = stdout w ++ lines
    /\ List.length lines = List.length l.
Proof.
  revert w; induction l as [|p l IH]; intros w.
  - exists []. now rewrite app_nil_r.
  - cbn [fold_left]. destruct (IH (turn os w p)) as (lines & E & L).
    destruct (turn_prints p w) as [line El].
    exists (line :: lines). rewrite E, El, <- app_assoc.
    cbn [List.length]. now rewrite L.
Qed.

End Run.

End FixBordersRun.

(** ** StyleTokenRewriter: the specification's statements *)

Module FixBordersSpec.
Import Re Py FixBorders Overlap FixBordersFacts FixBordersRun Examples.

(** C4.  Wherever [shadow-brutal-lg] stands in the input, the ten
    substitutions applied in order turn that occurrence into
    [shadow-md], and the text before and after it is rewritten as it
    would be on its own; the occurrence does not become
    [shadow-sm-lg]. *)
Theorem C4_shadow_brutal_lg (pre post : text) :
  rewrite (pre ++ str "shadow-brutal-lg" ++ post) =
  rewrite pre ++ str "shadow-md" ++ rewrite post
  /\ rewrite (str "shadow-brutal-lg") <> str "shadow-sm-lg".
Proof.
  split.
  - unfold rewrite.
    rewrite (apply_rules_isolated replacements (str "shadow-brutal-lg"))
      by (vm_compute; reflexivity).
    do 2 f_equal.
  - vm_compute. discriminate.
Qed.

(** Rule 6 before rule 7 is what C4 rests on: the other way round the
    token would become [shadow-sm-lg]. *)
Lemma rule_7_before_rule_6 :
  re_sub "shadow-brutal-lg" "shadow-md"
    (re_sub "shadow-brutal" "shadow-sm" (str "shadow-brutal-lg"))
  = str "shadow-sm-lg".
Proof. vm_compute. reflexivity. Qed.

(** C1, on the code.  Rule 7 ([shadow-brutal]) runs before rule 8
    ([hover:shadow-brutal]) and rewrites the token inside
    [hover:shadow-brutal]; rule 8 then finds nothing.  The ten
    substitutions turn [hover:shadow-brutal] into [hover:shadow-sm],
    although rule 8 alone would give [hover:shadow-md]. *)
Theorem C1_hover_becomes_sm :
  rewrite hover_in = str "hover:shadow-sm"
  /\ rewrite hover_in <> str "hover:shadow-md"
  /\ re_sub "hover:shadow-brutal" "hover:shadow-md" hover_in
     = str "hover:shadow-md"
  /\ re_sub "shadow-brutal" "shadow-sm" hover_in = str "hover:shadow-sm".
Proof.
  repeat split; vm_compute; try reflexivity; discriminate.
Qed.

(** C3.  Whatever the file system does: when the [try] body of some
    path [p] of the list raises [e], the turn for [p] returns normally
    after printing [Error fixing p: ] and the message of [e] as its only
    line; the script goes on with the paths after [p], each in its own
    turn, prints [Done!] last, and returns normally (exit status 0),
    having printed one line per path. *)
Theorem C3_errors_are_caught
  (FS : Type) (os : OS FS) (w : world FS)
  (before after : list string) (p : string) (e : Exception) :
  files_to_fix = before ++ p :: after ->
  let wp := fold_left (turn os) before w in
  fst (fix_body os p wp) = inl e ->
  let error_line := ("Error fixing " ++ p ++ ": " ++ exc_msg e)%string in
  fix_file os p wp = (inr tt, turn os wp p)
  /\ stdout (turn os wp p) = stdout wp ++ [error_line]
  /\ main os w =
     (inr tt, print_line "Done!" (fold_left (turn os) after (turn os wp p)))
  /\ exit_status (fst (main os w)) = 0
  /\ exists lines1 lines2,
       stdout (snd (main os w)) =
       stdout w ++ lines1 ++ [error_line] ++ lines2 ++ ["Done!"%string]
       /\ List.length lines1 = List.length before
       /\ List.length lines2 = List.length after.
Proof.
  intros Hfiles wp Hraise error_line.
  assert (Hline : stdout (turn os wp p) = stdout wp ++ [error_line]).
  { rewrite (fix_file_raised FS os p wp e Hraise). cbn [print_line stdout].
    now rewrite (fix_body_raises_silent FS os p wp e Hraise). }
  assert (Hmain : main os w =
            (inr tt,
             print_line "Done!" (fold_left (turn os) after (turn os wp p)))).
  { rewrite main_returns, Hfiles, fold_left_app. reflexivity. }
  split; [apply fix_file_returns|].
  split; [exact Hline|].
  split; [exact Hmain|].
  split; [now rewrite Hmain|].
  destruct (turns_print FS os before w) as (lines1 & E1 & L1).
  destruct (turns_print FS os after (turn os wp p)) as (lines2 & E2 & L2).
  exists lines1, lines2. rewrite Hmain. cbn [snd print_line stdout].
  rewrite E2, Hline. fold wp in E1. rewrite E1.
  repeat split; try assumption.
  now rewrite <- !app_assoc.
Qed.

(** C3 on a run in which the second file of the list is missing. *)
Lemma C3_errors_are_caught_witness :
  files_to_fix = [first_path] ++ missing_path :: [last_path]
  /\ fst (fix_body SimpleFS.os missing_path
            (fold_left (turn SimpleFS.os) [first_path] start))
     = inl missing_error
  /\ (let wp := fold_left (turn SimpleFS.os) [first_path] start in
      let error_line :=
        ("Error fixing " ++ missing_path ++ ": " ++ exc_msg missing_error)
          %string in
      fix_file SimpleFS.os missing_path wp
      = (inr tt, turn SimpleFS.os wp missing_path)
      /\ stdout (turn SimpleFS.os wp missing_path)
         = stdout wp ++ [error_line]
      /\ main SimpleFS.os start =
         (inr tt,
          print_line "Done!"
            (fold_left (turn SimpleFS.os) [last_path]
                       (turn SimpleFS.os wp missing_path)))
      /\ exit_status (fst (main SimpleFS.os start)) = 0
      /\ exists lines1 lines2,
           stdout (snd (main SimpleFS.os start)) =
           stdout start ++ lines1 ++ [error_line] ++ lines2
                  ++ ["Done!"%string]
           /\ List.length lines1 = List.length [first_path]
           /\ List.length lines2 = List.length [last_path]).
Proof.
  split; [reflexivity|].
  split; [vm_compute; reflexivity|].
  apply (C3_errors_are_caught SimpleFS.FS SimpleFS.os start
           [first_path] [last_path] missing_path missing_error).
  - reflexivity.
  - vm_compute. reflexivity.
Defined.

(** What that run prints. *)
Lemma missing_file_run :
  stdout (snd (main SimpleFS.os start)) =
  [ "Fixed src/components/TestCaseRowNormal.tsx";
    "Error fixing src/components/TestCaseRowTeaching.tsx: [Errno 2] No such file or directory: 'src/components/TestCaseRowTeaching.tsx'";
    "Fixed src/components/TableFilters.tsx";
    "Done!" ]%string
  /\ SimpleFS.lookup (files (snd (main SimpleFS.os start))) last_path
     = Some (str "shadow-md border rounded-lg").
Proof. split; vm_compute; reflexivity. Qed.

End FixBordersSpec.

(** ** Occurrences of a pattern *)

Module OccursFacts.

Lemma occurs_head (p s : text) : occurs p s = false -> prefixb p s = false.
Proof.
  destruct s; cbn [occurs]; intros H; now apply orb_false_iff in H as [H _].
Qed.

Lemma occurs_suffix (p a b : text) :
  occurs p (a ++ b) = false -> occurs p b = false.
Proof.
  induction a as [|c a IH]; [trivial|]. cbn [app occurs]. intros H.
  apply orb_false_iff in H as [_ H]. now apply IH.
Qed.

Lemma occurs_intro (p t1 t2 : text) : occurs p (t1 ++ p ++ t2) = true.
Proof.
  induction t1 as [|c t1 IH].
  - cbn [app]. destruct (p ++ t2) eqn:E; cbn [occurs]; rewrite <- E;
      now rewrite prefixb_app.
  - cbn [app occurs]. rewrite IH. apply orb_true_r.
Qed.

Lemma occurs_inv (p s : text) :
  occurs p s = true -> exists t1 t2, s = t1 ++ p ++ t2.
Proof.
  induction s as [|c s IH]; cbn [occurs]; intros H.
  - rewrite orb_false_r in H. apply prefixb_split in H.
    now exists [], (skipn (List.length p) []).
  - apply orb_true_iff in H as [H|H].
    + apply prefixb_split in H.
      now exists [], (skipn (List.length p) (c :: s)).
    + destruct (IH H) as (t1 & t2 & ->). now exists (c :: t1), t2.
Qed.

(** A text free of [p] is free of every text that contains [p]. *)
Lemma occurs_larger (p a b s : text) :
  occurs p s = false -> occurs (a ++ p ++ b) s = false.
Proof.
  intros H. destruct (occurs (a ++ p ++ b) s) eqn:E; [|reflexivity].
  apply occurs_inv in E as (t1 & t2 & ->).
  replace (t1 ++ (a ++ p ++ b) ++ t2) with ((t1 ++ a) ++ p ++ (b ++ t2)) in H
    by (now rewrite <- !app_assoc).
  now rewrite occurs_intro in H.
Qed.

Lemma occurs_app_false (p a b : text) :
  (forall a1 a2, a = a1 ++ a2 -> a2 <> [] -> prefixb p (a2 ++ b) = false) ->
  occurs p b = false -> occurs p (a ++ b) = false.
Proof.
  induction a as [|c a IH]; intros Ha Hb; [exact Hb|].
  cbn [app occurs]. apply orb_false_iff. split.
  - apply (Ha [] (c :: a)); [reflexivity | discriminate].
  - apply IH; [|exact Hb]. intros a1 a2 E. apply (Ha (c :: a1) a2).
    now rewrite E.
Qed.

End OccursFacts.

(** ** StyleTokenRewriter: what a pass leaves and what it cannot create *)

Module FixBordersAbsent.
Import Re ReFacts FixBorders Overlap FixBordersFacts OccursFacts.

(** A pass changes nothing in a text its pattern does not occur in. *)
Lemma sub_lit_absent (old new s : text) :
  1 <= List.length old -> occurs old s = false ->
  sub (lit old) [TLit new] s = s.
Proof.
  intros Hne. induction s as [|c s IH]; intros H.
  - now apply rep_nil.
  - cbn [occurs] in H. apply orb_false_iff in H as [Hp Ho].
    rewrite (rep_miss old new c s Hp). f_equal. now apply IH.
Qed.

Section Absent.
Variables old new p : text.
Hypothesis old_ne : 1 <= List.length old.
Hypothesis p_ne : 1 <= List.length p.
Hypothesis p_new : occurs p new = false.
Hypothesis p_left : clear_left p new = true.
Hypothesis p_right : clear_right p new = true.

(** [p] starts in [s] only where [old] does. *)
Let only_at_old (s : text) : Prop :=
  forall s1 s2, s = s1 ++ s2 -> prefixb old s2 = false ->
                prefixb p s2 = false.

(** [p] does not start inside [x] when [x] is followed by [s]. *)
Let not_from (x s : text) : Prop :=
  forall x1 x2, x = x1 ++ x2 -> x2 <> [] -> prefixb p (x2 ++ s) = false.

Lemma not_from_new (t : text) : not_from new t.
Proof.
  intros n1 n2 E Hne.
  destruct (le_lt_dec (List.length p) (List.length n2)) as [Hle|Hlt].
  - rewrite prefixb_app_short by assumption. apply occurs_head.
    apply (occurs_suffix p n1). now rewrite <- E.
  - now apply (clear_right_ok p p_ne new n1 n2 t).
Qed.

Lemma absent_after :
  forall (n : nat) (s x : text),
    List.length s <= n -> only_at_old s -> not_from x s ->
    not_from x (sub (lit old) [TLit new] s)
    /\ occurs p (sub (lit old) [TLit new] s) = false.
Proof.
  induction n as [|n IH]; intros s x Hn Hs Hx.
  - destruct s; [|cbn [List.length] in Hn; lia].
    rewrite (rep_nil old new old_ne). split; [exact Hx|].
    destruct p; [cbn [List.length] in p_ne; lia | reflexivity].
  - destruct (prefixb old s) eqn:P.
    + apply prefixb_split in P.
      set (t := skipn (List.length old) s) in *.
      assert (Ht : List.length t <= n).
      { apply (f_equal (@List.length char)) in P.
        rewrite length_app in P. lia. }
      assert (Hs' : only_at_old t).
      { intros s1 s2 E. apply (Hs (old ++ s1) s2).
        now rewrite P, E, <- app_assoc. }
      destruct (IH t new Ht Hs' (not_from_new t)) as [In Io].
      rewrite P, (rep_hit old new old_ne). split.
      * intros x1 x2 E Hne.
        destruct (le_lt_dec (List.length p) (List.length x2)) as [Hle|Hlt].
        -- rewrite prefixb_app_short by assumption.
           rewrite <- (prefixb_app_short p x2 s) by assumption.
           now apply (Hx x1 x2).
        -- now apply (clear_left_ok p p_ne new x2).
      * now apply occurs_app_false.
    + destruct s as [|c s'].
      * rewrite (rep_nil old new old_ne). split; [exact Hx|].
        destruct p; [cbn [List.length] in p_ne; lia | reflexivity].
      * rewrite (rep_miss old new c s' P).
        assert (Hc : prefixb p (c :: s') = false).
        { now apply (Hs [] (c :: s')). }
        assert (Hs' : only_at_old s').
        { intros s1 s2 E. apply (Hs (c :: s1) s2). now rewrite E. }
        assert (Hx' : not_from (x ++ [c]) s').
        { intros y1 y2 E Hne.
          destruct (@exists_last _ y2 Hne) as (y2' & d & ->).
          rewrite app_assoc in E. apply app_inj_tail in E as [E <-].
          rewrite <- app_assoc. cbn [app].
          destruct y2' as [|e y2']; [exact Hc|].
          apply (Hx y1 (e :: y2')); [now symmetry | discriminate]. }
        cbn [List.length] in Hn.
        destruct (IH s' (x ++ [c]) ltac:(lia) Hs' Hx') as [In Io].
        split.
        -- intros x1 x2 E Hne.
           replace (x2 ++ c :: sub (lit old) [TLit new] s')
             with ((x2 ++ [c]) ++ sub (lit old) [TLit new] s')
             by (now rewrite <- app_assoc).
           apply (In x1 (x2 ++ [c])).
           ++ now rewrite E, <- app_assoc.
           ++ destruct x2; discriminate.
        -- cbn [occurs]. rewrite Io, orb_false_r.
           apply (In x [c]); [reflexivity | discriminate].
Qed.

(** A pass does not bring [p] into a text that did not have it. *)
Lemma absent_kept (s : text) :
  occurs p s = false -> occurs p (sub (lit old) [TLit new] s) = false.
Proof.
  intros H. apply (absent_after (List.length s) s []); [lia| |].
  - intros s1 s2 E _. apply occurs_head. apply (occurs_suffix p s1).
    now rewrite <- E.
  - intros x1 x2 E Hne. symmetry in E. apply app_eq_nil in E as [_ E].
    congruence.
Qed.

End Absent.

(** After its pass the pattern is gone, when the replacement neither
    contains it nor can complete it. *)
Lemma old_removed (old new s : text) :
  isolated old new = true -> occurs old new = false ->
  occurs old (sub (lit old) [TLit new] s) = false.
Proof.
  unfold isolated. intros H Hn.
  apply andb_true_iff in H as [H Hr]. apply andb_true_iff in H as [Hne Hl].
  apply Nat.leb_le in Hne.
  apply (absent_after old new old Hne Hne Hn Hl Hr (List.length s) s []);
    [lia| |].
  - intros s1 s2 _ E. exact E.
  - intros x1 x2 E Hx. symmetry in E. apply app_eq_nil in E as [_ E].
    congruence.
Qed.

Lemma re_sub_absent_kept (old new : string) (p s : text) :
  (1 <=? List.length (str old)) && (1 <=? List.length p)
  && negb (occurs p (str new))
  && clear_left p (str new) && clear_right p (str new) = true ->
  occurs p s = false -> occurs p (re_sub old new s) = false.
Proof.
  intros H.
  apply andb_true_iff in H as [H Hr]. apply andb_true_iff in H as [H Hl].
  apply andb_true_iff in H as [H Hn]. apply andb_true_iff in H as [Ho Hp].
  apply Nat.leb_le in Ho, Hp. apply negb_true_iff in Hn.
  now apply absent_kept.
Qed.

Lemma apply_rules_absent (rules : list (string * string)) (c : text) :
  forallb (fun on => (1 <=? List.length (str (fst on)))
                     && negb (occurs (str (fst on)) c)) rules = true ->
  apply_rules rules c = c.
Proof.
  unfold apply_rules. induction rules as [|[old new] rules IH];
    cbn [forallb fold_left fst snd]; intros H; [reflexivity|].
  apply andb_true_iff in H as [H1 H2]. apply andb_true_iff in H1 as [Hn Ho].
  apply Nat.leb_le in Hn. apply negb_true_iff in Ho.
  unfold re_sub at 2. rewrite (sub_lit_absent _ _ _ Hn Ho). now apply IH.
Qed.

End FixBordersAbsent.

(** ** StyleTokenRewriter: more of what the ten passes do *)

Module FixBordersMore.
Import Re ReFacts FixBorders Overlap FixBordersFacts OccursFacts.
Import FixBordersAbsent Examples.

(** X1.  A content in which none of the ten patterns occurs is left as it
    is by the ten passes. *)
Theorem rewrite_without_patterns (content : text) :
  forallb (fun on => negb (occurs (str (fst on)) content)) replacements
  = true ->
  rewrite content = content.
Proof.
  intros H. unfold rewrite. apply apply_rules_absent.
  rewrite forallb_forall in *. intros on Hin.
  rewrite (H on Hin), andb_true_r.
  revert on Hin. apply forallb_forall. vm_compute. reflexivity.
Qed.

Lemma rewrite_without_patterns_witness :
  forallb (fun on => negb (occurs (str (fst on)) plain_markup)) replacements
  = true
  /\ rewrite plain_markup = plain_markup.
Proof.
  split; [vm_compute; reflexivity|].
  apply (rewrite_without_patterns plain_markup). vm_compute. reflexivity.
Defined.

(** What the passes after rule 7 do to a text. *)
Lemma after_rule_7 (c : text) :
  rewrite c =
  re_sub "border-2 border-black" "border"
    (re_sub "font-black" "font-semibold"
       (re_sub "hover:shadow-brutal" "hover:shadow-md"
          (re_sub "shadow-brutal" "shadow-sm"
             (apply_rules (firstn 6 replacements) c)))).
Proof. reflexivity. Qed.

Lemma rule_7_removes (c : text) :
  occurs (str "shadow-brutal") (re_sub "shadow-brutal" "shadow-sm" c) = false.
Proof. apply old_removed; vm_compute; reflexivity. Qed.

(** X2.  Whatever the content, the result of the ten passes has no
    [shadow-brutal] left in it, hence no [shadow-brutal-lg] and no
    [hover:shadow-brutal] either. *)
Theorem no_shadow_brutal_left (content : text) :
  occurs (str "shadow-brutal") (rewrite content) = false
  /\ occurs (str "shadow-brutal-lg") (rewrite content) = false
  /\ occurs (str "hover:shadow-brutal") (rewrite content) = false.
Proof.
  assert (H : occurs (str "shadow-brutal") (rewrite content) = false).
  { rewrite after_rule_7.
    apply re_sub_absent_kept; [vm_compute; reflexivity|].
    apply re_sub_absent_kept; [vm_compute; reflexivity|].
    apply re_sub_absent_kept; [vm_compute; reflexivity|].
    apply rule_7_removes. }
  split; [exact H|]. split.
  - apply (occurs_larger _ [] (str "-lg")) in H. exact H.
  - apply (occurs_larger _ (str "hover:") []) in H. exact H.
Qed.

(** X3.  The eighth rule, [hover:shadow-brutal] to [hover:shadow-md],
    never changes anything: on every content the ten passes give what
    the other nine give. *)
Theorem hover_rule_never_fires (content : text) :
  re_sub "hover:shadow-brutal" "hover:shadow-md"
    (apply_rules (firstn 7 replacements) content)
  = apply_rules (firstn 7 replacements) content
  /\ rewrite content =
     apply_rules (firstn 7 replacements ++ skipn 8 replacements) content.
Proof.
  assert (H : re_sub "hover:shadow-brutal" "hover:shadow-md"
                (apply_rules (firstn 7 replacements) content)
              = apply_rules (firstn 7 replacements) content).
  { apply sub_lit_absent; [vm_compute; lia|].
    pose proof (rule_7_removes (apply_rules (firstn 6 replacements) content))
      as R.
    apply (occurs_larger _ (str "hover:") []) in R. exact R. }
  split; [exact H|].
  rewrite after_rule_7.
  change (re_sub "shadow-brutal" "shadow-sm"
            (apply_rules (firstn 6 replacements) content))
    with (apply_rules (firstn 7 replacements) content).
  rewrite H. reflexivity.
Qed.

(** X4.  For every rule but the first, the seventh and the eighth: the
    rule's token is rewritten to the rule's replacement wherever it
    stands, and the text around it is rewritten as it would be alone. *)
Theorem token_rewritten_anywhere (old new : string) (pre post : text) :
  In (old, new) replacements ->
  ~ In old [ "border-b-4 border-black"; "shadow-brutal";
             "hover:shadow-brutal" ]%string ->
  rewrite (pre ++ str old ++ post) = rewrite pre ++ str new ++ rewrite post.
Proof.
  intros Hin Hout. unfold rewrite.
  unfold replacements in Hin at 1. cbn [In] in Hin, Hout.
  repeat destruct Hin as [Hin|Hin]; try contradiction;
    injection Hin as <- <-;
    try (exfalso; apply Hout; tauto);
    (rewrite apply_rules_isolated by (vm_compute; reflexivity);
     do 2 f_equal).
Qed.

Lemma token_rewritten_anywhere_witness :
  In ("font-black", "font-semibold")%string replacements
  /\ ~ In "font-black"%string
         [ "border-b-4 border-black"; "shadow-brutal";
           "hover:shadow-brutal" ]%string
  /\ rewrite (str "text-sm " ++ str "font-black" ++ str " uppercase")
     = rewrite (str "text-sm ") ++ str "font-semibold"
               ++ rewrite (str " uppercase").
Proof.
  split; [vm_compute; tauto|].
  split; [cbn [In]; intros [H|[H|[H|[]]]]; discriminate H|].
  apply (token_rewritten_anywhere "font-black" "font-semibold").
  - vm_compute. tauto.
  - cbn [In]. intros [H|[H|[H|[]]]]; discriminate H.
Defined.

(** X5.  No pattern contains a line break, so the ten passes work line by
    line: rewriting two lines is rewriting each. *)
Theorem rewrite_line_by_line (a b : text) :
  rewrite (a ++ newline :: b) = rewrite a ++ newline :: rewrite b.
Proof.
  unfold rewrite.
  change (a ++ newline :: b) with (a ++ [newline] ++ b).
  rewrite apply_rules_isolated by (vm_compute; reflexivity).
  reflexivity.
Qed.

(** X6.  Running the ten passes twice is not always running them once:
    the last rule can produce the pattern of the first, which only a
    second run rewrites. *)
Theorem rewrite_not_idempotent :
  ~ (forall content, rewrite (rewrite content) = rewrite content).
Proof.
  intros H. specialize (H nested_border). vm_compute in H. discriminate H.
Qed.

End FixBordersMore.

(** ** FieldInserter: more of what the substitution and the script do *)

Module FixTestsMore.
Import Re ReFacts FixTests FixTestsFacts OccursFacts Examples.

Lemma match_needs_key (s : text) :
  prefixb key s = false -> re_match pattern s = None.
Proof.
  intros H. destruct (re_match pattern s) as [[rest caps]|] eqn:M;
    [|reflexivity].
  apply match_inv in M as (w & v & rest1 & -> & _).
  now rewrite prefixb_app in H.
Qed.

(** X7.  A content in which [codeChange:] does not occur is returned as
    it is. *)
Theorem no_key_unchanged (content : text) :
  occurs key content = false -> add_org_pressure content = content.
Proof.
  unfold add_org_pressure.
  induction content as [|c s IH]; intros H.
  - apply sub_nil_nomatch. reflexivity.
  - cbn [occurs] in H. apply orb_false_iff in H as [Hp Ho].
    rewrite (sub_nomatch _ _ _ _ (match_needs_key _ Hp)).
    f_equal. now apply IH.
Qed.

Lemma no_key_unchanged_witness :
  occurs key plain_markup = false
  /\ add_org_pressure plain_markup = plain_markup.
Proof.
  split; [vm_compute; reflexivity|].
  apply (no_key_unchanged plain_markup). vm_compute. reflexivity.
Defined.

(** One step of the scan, at any text: either the pattern matches, the
    text is a sentinel, whitespace and a letter, and the field goes in
    between; or one character is copied. *)
Lemma add_step (s : text) :
  match re_match pattern s with
  | Some (rest, _) =>
      exists w v ws c,
        s = key ++ w ++ v ++ [comma] ++ ws ++ c :: rest
        /\ add_org_pressure s =
           key ++ w ++ v ++ [comma] ++ ws ++ inserted ++ ws
               ++ c :: add_org_pressure rest
  | None =>
      add_org_pressure s =
      match s with
      | [] => []
      | c :: s' => c :: add_org_pressure s'
      end
  end.
Proof.
  destruct (re_match pattern s) as [[rest caps]|] eqn:Hm.
  - destruct (match_inv _ _ _ Hm) as (w & v & rest1 & -> & Hw & Hne & Hv).
    rewrite (match_shape w v rest1 Hw Hne Hv) in Hm.
    pose proof (space_split rest1) as Er.
    pose proof (leading_space_spaces rest1) as Hl.
    destruct (skip_space rest1) as [|c f']; [discriminate Hm|].
    destruct (is_letter c) eqn:Hc; [|discriminate Hm].
    destruct (prefixb target (c :: f')) eqn:Ht; [discriminate Hm|].
    cbn [andb negb] in Hm. injection Hm as <- <-.
    exists w, v, (leading_space rest1), c. split.
    + now rewrite Er at 1.
    + rewrite Er at 1.
      exact (insert_at w v (leading_space rest1) c f' Hw Hne Hv Hl Hc Ht).
  - unfold add_org_pressure. destruct s as [|c s'].
    + now apply sub_nil_nomatch.
    + now apply sub_nomatch.
Qed.

(** X8.  The substitution only adds text: the result is the content
    itself or is longer by the inserted field at least. *)
Theorem never_shrinks (content : text) :
  add_org_pressure content = content
  \/ List.length content + List.length inserted
     <= List.length (add_org_pressure content).
Proof.
  remember (List.length content) as n eqn:En. revert content En.
  induction n as [n IH] using lt_wf_ind. intros s En.
  pose proof (add_step s) as St.
  destruct (re_match pattern s) as [[rest caps]|].
  - destruct St as (w & v & ws & c & Es & Ea). right.
    assert (Hr : List.length rest <= List.length (add_org_pressure rest)).
    { assert (Hlt : List.length rest < n).
      { rewrite En, Es, !length_app. cbn [List.length]. lia. }
      destruct (IH _ Hlt rest eq_refl) as [->|H]; lia. }
    rewrite Ea. rewrite Es in En. rewrite En.
    repeat (rewrite length_app || rewrite length_cons).
    cbn [List.length]. lia.
  - destruct s as [|c s']; [now left|].
    cbn [List.length] in En.
    destruct (IH (List.length s') ltac:(lia) s' eq_refl) as [E|H].
    + left. now rewrite St, E.
    + right. rewrite St. cbn [List.length]. lia.
Qed.

(** X9.  Applying the substitution twice is not always applying it once:
    a sentinel that starts at the letter following another sentinel is
    passed over by the first application and matched by the second. *)
Theorem add_org_pressure_not_idempotent :
  ~ (forall content,
       add_org_pressure (add_org_pressure content)
       = add_org_pressure content).
Proof.
  intros H. specialize (H adjacent_fields). vm_compute in H.
  discriminate H.
Qed.

(** X10.  An error of the read is not caught: the script raises it,
    having written and printed nothing, and the exit status is not
    zero. *)
Theorem main_read_error
  (FS : Type) (os : Py.OS FS) (w : Py.world FS)
  (prog path : string) (more : list string) (e : Py.Exception) :
  Py.os_read os (Py.files w) path = inl e ->
  main os (prog :: path :: more) w = (inl e, w)
  /\ Py.exit_status (fst (main os (prog :: path :: more) w)) <> 0.
Proof.
  intros H.
  assert (E : main os (prog :: path :: more) w = (inl e, w)).
  { unfold main, Py.bind, Py.index, Py.ret, Py.read_file. cbn [nth_error].
    now rewrite H. }
  split; [exact E|]. rewrite E. discriminate.
Qed.

Lemma main_read_error_witness :
  Py.os_read SimpleFS.os (Py.files start) missing_path = inl missing_error
  /\ main SimpleFS.os ["fix_tests.py"%string; missing_path] start
     = (inl missing_error, start)
  /\ Py.exit_status
       (fst (main SimpleFS.os ["fix_tests.py"%string; missing_path] start))
     <> 0.
Proof.
  split; [vm_compute; reflexivity|].
  apply (main_read_error SimpleFS.FS SimpleFS.os start
           "fix_tests.py" missing_path [] missing_error).
  vm_compute. reflexivity.
Defined.

(** X11.  An error of the write is not caught either: the script raises
    it, the files are as the failed write left them, [Fixed] is not
    printed, and the exit status is not zero. *)
Theorem main_write_error
  (FS : Type) (os : Py.OS FS) (w : Py.world FS)
  (prog path : string) (more : list string)
  (content : text) (fs' : FS) (e : Py.Exception) :
  Py.os_read os (Py.files w) path = inr content ->
  Py.os_write os (Py.files w) path (add_org_pressure content)
  = (fs', Some e) ->
  main os (prog :: path :: more) w
  = (inl e, {| Py.files := fs'; Py.stdout := Py.stdout w |})
  /\ Py.exit_status (fst (main os (prog :: path :: more) w)) <> 0.
Proof.
  intros Hr Hw.
  assert (E : main os (prog :: path :: more) w
              = (inl e, {| Py.files := fs'; Py.stdout := Py.stdout w |})).
  { unfold main, Py.bind, Py.index, Py.ret, Py.read_file, Py.write_file.
    cbn [nth_error]. rewrite Hr. cbn [Py.files]. now rewrite Hw. }
  split; [exact E|]. rewrite E. discriminate.
Qed.

Lemma main_write_error_witness :
  Py.os_read SimpleFS.read_only (Py.files start) first_path
  = inr (str "class x font-black")
  /\ Py.os_write SimpleFS.read_only (Py.files start) first_path
       (add_org_pressure (str "class x font-black"))
     = (two_files,
        Some {| Py.exc_class := "PermissionError";
                Py.exc_msg :=
                  "[Errno 13] Permission denied: 'src/components/TestCaseRowNormal.tsx'" |})
  /\ main SimpleFS.read_only ["fix_tests.py"%string; first_path] start
     = (inl {| Py.exc_class := "PermissionError";
               Py.exc_msg :=
                 "[Errno 13] Permission denied: 'src/components/TestCaseRowNormal.tsx'" |},
        {| Py.files := two_files; Py.stdout := Py.stdout start |})
  /\ Py.exit_status
       (fst (main SimpleFS.read_only ["fix_tests.py"%string; first_path]
               start))
     <> 0.
Proof.
  split; [vm_compute; reflexivity|].
  split; [vm_compute; reflexivity|].
  apply (main_write_error SimpleFS.FS SimpleFS.read_only start
           "fix_tests.py" first_path [] (str "class x font-black")).
  - vm_compute. reflexivity.
  - vm_compute. reflexivity.
Defined.

End FixTestsMore.

(** ** The scripts as programs: what a run does to files and output *)

Module RunMore.
Import Py FixBorders FixBordersRun Examples.

Lemma turn_reports (FS : Type) (os : OS FS) (p : string) (w : world FS) :
  exists line, stdout (turn os w p) = stdout w ++ [line] /\ reports p line.
Proof.
  unfold turn, fix_file, try_except, fix_body, bind, read_file, write_file,
    print, reports.
  destruct (os_read os (files w) p) as [e|content].
  - eexists. split; [reflexivity|]. right. now exists e.
  - destruct (os_write os (files w) p (rewrite content)) as [fs' [e|]].
    + eexists. split; [reflexivity|]. right. now exists e.
    + eexists. split; [reflexivity|]. now left.
Qed.

Lemma turns_report (FS : Type) (os : OS FS) (l : list string) :
  forall w : world FS,
  exists lines,
    stdout (fold_left (turn os) l w) = stdout w ++ lines
    /\ Forall2 reports l lines.
Proof.
  induction l as [|p l IH]; intros w.
  - exists []. split; [now rewrite app_nil_r | constructor].
  - cbn [fold_left]. destruct (IH (turn os w p)) as (lines & E & F).
    destruct (turn_reports FS os p w) as (line & El & R).
    exists (line :: lines). split.
    + now rewrite E, El, <- app_assoc.
    + now constructor.
Qed.

(** X12.  Whatever the file system does, StyleTokenRewriter returns
    normally (exit status 0) and prints, in the order of the list, one
    line for each path, [Fixed] or [Error fixing] with that path, and
    then [Done!]. *)
Theorem main_always_returns (FS : Type) (os : OS FS) (w : world FS) :
  fst (main os w) = inr tt
  /\ exit_status (fst (main os w)) = 0
  /\ exists lines,
       stdout (snd (main os w)) = stdout w ++ lines ++ ["Done!"%string]
       /\ Forall2 reports files_to_fix lines.
Proof.
  rewrite main_returns. split; [reflexivity|]. split; [reflexivity|].
  destruct (turns_report FS os files_to_fix w) as (lines & E & F).
  exists lines. split; [|exact F].
  cbn [snd print_line stdout]. now rewrite E, <- app_assoc.
Qed.

(** X13.  A file that cannot be read is not written: the turn leaves the
    files as they were and prints the error line. *)
Theorem unreadable_not_written
  (FS : Type) (os : OS FS) (w : world FS) (p : string) (e : Exception) :
  os_read os (files w) p = inl e ->
  files (turn os w p) = files w
  /\ stdout (turn os w p) =
     stdout w ++ [("Error fixing " ++ p ++ ": " ++ exc_msg e)%string].
Proof.
  intros H. unfold turn, fix_file, try_except, fix_body, bind, read_file.
  rewrite H. split; reflexivity.
Qed.

Lemma unreadable_not_written_witness :
  os_read SimpleFS.os (files start) missing_path = inl missing_error
  /\ files (turn SimpleFS.os start missing_path) = files start
  /\ stdout (turn SimpleFS.os start missing_path) =
     stdout start
       ++ [("Error fixing " ++ missing_path ++ ": "
              ++ exc_msg missing_error)%string].
Proof.
  split; [vm_compute; reflexivity|].
  apply (unreadable_not_written SimpleFS.FS SimpleFS.os start missing_path
           missing_error).
  vm_compute. reflexivity.
Defined.

(** *** On the simple file system *)

Lemma lookup_store_same (fs : SimpleFS.FS) (p : string) (c : text) :
  SimpleFS.lookup (SimpleFS.store fs p c) p = Some c.
Proof.
  induction fs as [|[p0 c0] fs IH]; cbn [SimpleFS.store SimpleFS.lookup].
  - now rewrite String.eqb_refl.
  - destruct (String.eqb p0 p) eqn:E; cbn [SimpleFS.lookup]; rewrite E;
      [reflexivity | exact IH].
Qed.

Lemma lookup_store_other (fs : SimpleFS.FS) (p q : string) (c : text) :
  p <> q ->
  SimpleFS.lookup (SimpleFS.store fs p c) q = SimpleFS.lookup fs q.
Proof.
  intros Hpq.
  induction fs as [|[p0 c0] fs IH]; cbn [SimpleFS.store SimpleFS.lookup].
  - apply String.eqb_neq in Hpq. now rewrite Hpq.
  - destruct (String.eqb p0 p) eqn:E; cbn [SimpleFS.lookup].
    + apply String.eqb_eq in E. subst p0.
      apply String.eqb_neq in Hpq. now rewrite Hpq.
    + destruct (String.eqb p0 q); [reflexivity | exact IH].
Qed.

Lemma simple_turn (w : world SimpleFS.FS) (p : string) :
  turn SimpleFS.os w p =
  match SimpleFS.lookup (files w) p with
  | Some c =>
      {| files := SimpleFS.store (files w) p (rewrite c);
         stdout := stdout w ++ [("Fixed " ++ p)%string] |}
  | None =>
      {| files := files w;
         stdout :=
           stdout w ++ [("Error fixing " ++ p ++ ": " ++ SimpleFS.not_found p)%string]
      |}
  end.
Proof.
  unfold turn, fix_file, try_except, fix_body, bind, read_file, write_file,
    print, print_line.
  cbn [SimpleFS.os os_read os_write].
  destruct (SimpleFS.lookup (files w) p); reflexivity.
Qed.

Lemma lookup_turn (w : world SimpleFS.FS) (p q : string) :
  SimpleFS.lookup (files (turn SimpleFS.os w p)) q =
  if String.eqb p q
  then option_map rewrite (SimpleFS.lookup (files w) q)
  else SimpleFS.lookup (files w) q.
Proof.
  rewrite simple_turn. destruct (String.eqb_spec p q) as [<-|Hpq].
  - destruct (SimpleFS.lookup (files w) p) eqn:E; cbn [files option_map].
    + apply lookup_store_same.
    + exact E.
  - destruct (SimpleFS.lookup (files w) p); cbn [files];
      [now apply lookup_store_other | reflexivity].
Qed.

(** X14.  On the simple file system a run of StyleTokenRewriter changes
    the three listed files only: each one that exists holds the rewritten
    content afterwards, one that is missing is not created, and every
    other path is as before. *)
Theorem simple_run_files (w : world SimpleFS.FS) (q : string) :
  SimpleFS.lookup (files (snd (main SimpleFS.os w))) q =
  if existsb (String.eqb q) files_to_fix
  then option_map rewrite (SimpleFS.lookup (files w) q)
  else SimpleFS.lookup (files w) q.
Proof.
  rewrite main_returns. cbn [snd print_line files].
  unfold files_to_fix. cbn [fold_left existsb].
  rewrite !lookup_turn, !(String.eqb_sym q).
  repeat match goal with
         | |- context [String.eqb ?a q] =>
             destruct (String.eqb_spec a q) as [<-|?]
         end; cbn [orb String.eqb Ascii.eqb Bool.eqb andb]; reflexivity.
Qed.

Lemma stdout_turn_lookup (w : world SimpleFS.FS) (p q : string) :
  p <> q ->
  SimpleFS.lookup (files (turn SimpleFS.os w p)) q
  = SimpleFS.lookup (files w) q.
Proof.
  intros H. rewrite lookup_turn. apply String.eqb_neq in H. now rewrite H.
Qed.

(** X15.  On the simple file system the report tells which files were
    rewritten: [Fixed] for each listed path that exists at the start,
    the [No such file or directory] error for each that does not. *)
Theorem simple_run_report (w : world SimpleFS.FS) :
  stdout (snd (main SimpleFS.os w)) =
  stdout w ++ map (SimpleFS.simple_line (files w)) files_to_fix ++ ["Done!"%string].
Proof.
  rewrite main_returns. cbn [snd print_line stdout].
  unfold files_to_fix. cbn [fold_left map].
  set (p1 := "src/components/TestCaseRowNormal.tsx"%string).
  set (p2 := "src/components/TestCaseRowTeaching.tsx"%string).
  set (p3 := "src/components/TableFilters.tsx"%string).
  assert (L3 : SimpleFS.lookup
                 (files (turn SimpleFS.os (turn SimpleFS.os w p1) p2)) p3
               = SimpleFS.lookup (files w) p3).
  { rewrite !stdout_turn_lookup; [reflexivity | discriminate..]. }
  assert (L2 : SimpleFS.lookup (files (turn SimpleFS.os w p1)) p2
               = SimpleFS.lookup (files w) p2).
  { rewrite stdout_turn_lookup; [reflexivity | discriminate]. }
  rewrite (simple_turn _ p3), L3.
  assert (S2 : stdout (turn SimpleFS.os (turn SimpleFS.os w p1) p2)
               = stdout w ++ [SimpleFS.simple_line (files w) p1;
                              SimpleFS.simple_line (files w) p2]).
  { rewrite (simple_turn _ p2), L2, (simple_turn w p1).
    unfold SimpleFS.simple_line.
    destruct (SimpleFS.lookup (files w) p1),
             (SimpleFS.lookup (files w) p2);
      cbn [stdout]; now rewrite <- app_assoc. }
  unfold SimpleFS.simple_line at 3.
  destruct (SimpleFS.lookup (files w) p3); cbn [stdout];
    rewrite S2, <- !app_assoc; reflexivity.
Qed.

(** X16.  On the simple file system FieldInserter, given the path of a
    file that exists, returns normally, leaves in that file the
    substitution applied to its content, leaves every other path as it
    was, and prints the one line [Fixed] with the path; arguments after
    the first are ignored. *)
Theorem field_inserter_run
  (w : world SimpleFS.FS) (prog path : string) (more : list string)
  (content : text) :
  SimpleFS.lookup (files w) path = Some content ->
  let r := FixTests.main SimpleFS.os (prog :: path :: more) w in
  fst r = inr tt
  /\ SimpleFS.lookup (files (snd r)) path
     = Some (FixTests.add_org_pressure content)
  /\ (forall q, q <> path ->
        SimpleFS.lookup (files (snd r)) q = SimpleFS.lookup (files w) q)
  /\ stdout (snd r) = stdout w ++ [("Fixed " ++ path)%string].
Proof.
  intros H r.
  assert (E : r = (inr tt,
                   {| files := SimpleFS.store (files w) path
                                 (FixTests.add_org_pressure content);
                      stdout := stdout w ++ [("Fixed " ++ path)%string] |})).
  { unfold r, FixTests.main, bind, index, ret, read_file, write_file, print,
      print_line.
    cbn [nth_error SimpleFS.os os_read os_write]. rewrite H. reflexivity. }
  rewrite E. cbn [fst snd files stdout].
  split; [reflexivity|]. split; [apply lookup_store_same|].
  split; [|reflexivity].
  intros q Hq. apply lookup_store_other. congruence.
Qed.

Lemma field_inserter_run_witness :
  SimpleFS.lookup (files start) first_path = Some (str "class x font-black")
  /\ (let r := FixTests.main SimpleFS.os
                 ["fix_tests.py"%string; first_path] start in
      fst r = inr tt
      /\ SimpleFS.lookup (files (snd r)) first_path
         = Some (FixTests.add_org_pressure (str "class x font-black"))
      /\ (forall q, q <> first_path ->
            SimpleFS.lookup (files (snd r)) q
            = SimpleFS.lookup (files start) q)
      /\ stdout (snd r) = stdout start ++ [("Fixed " ++ first_path)%string]).
Proof.
  split; [vm_compute; reflexivity|].
  apply (field_inserter_run start "fix_tests.py" first_path []
           (str "class x font-black")).
  vm_compute. reflexivity.
Defined.

End RunMore.
